(** * AsyncSerial: a shallow embedding of [trunk/src/AsyncSerial.cpp]

    The source file holds two implementations of the same class, selected
    by the preprocessor:

    - [#ifndef __APPLE__]: the {e reactor} implementation, built on a
      [boost::asio::io_service] that a background thread runs
      (module [Reactor]);
    - [#else]: the {e blocking-worker} implementation, a background thread
      that loops on a blocking [::read] (module [BlockingWorker]).

    Every member function is a state transformer on a record that holds
    the fields of [AsyncSerialImpl] together with the part of the
    environment the functions act on (the io_service queue, the port, the
    descriptor, the background thread) and three observation logs (the
    bytes handed to the transport, the callback invocations, the console).
    Answers of the operating system and of the library (error codes,
    return values, whether a library call throws) are arguments.

    Granularity.  The io_service runs its handlers one at a time on one
    thread, so a handler is one atomic step, and [write] is one step.  The
    flag [pimpl->open] is read and written without a lock, so the calls
    that write it while the background thread is inside [io_service::run]
    are not atomic: [close] is the write of the flag, the events that
    happen before [doClose] is posted, the post, the events that happen
    while the caller waits in [backgroundThread.join()], and the step after
    the join; [open] is the steps up to the start of the thread, the events
    that happen before the two flags are written, and the writes.  In the
    blocking worker the two statements of [close] before the join are one
    step: a read that returns between them has the effect of one that
    returns just before the first (when it succeeds) or just after the
    second (when it fails). *)

From Stdlib Require Import List Bool Arith ZArith Lia String Ascii DecimalString.
Import ListNotations.
Local Open Scope list_scope.

(** ** Shared vocabulary *)

(** [char]. *)
Definition char : Type := ascii.

(** [boost::system::error_code], by its [value()]; zero is success. *)
Definition error_code : Type := Z.
Bind Scope Z_scope with error_code.

(** [if(error)]: the conversion of an error code to [bool]. *)
Definition failed (ec : error_code) : bool := negb (ec =? 0)%Z.

(** How a call ends: it returns, or it throws an exception with a message. *)
Inductive outcome : Type :=
| Returned
| Thrown (what : string).

(** The codes of a [port.cancel] and a [port.close] that both succeed. *)
Definition no_errors : error_code * error_code := (0%Z, 0%Z).

(** A registered [boost::function<void (const char*, size_t)>], by name. *)
Definition callback_fn : Type := nat.

(** The [std::string] and the [std::vector<char>] views of a byte sequence,
    and the [(pointer, size)] view: [data] maps an offset to the byte at
    [data + offset]. *)
Definition bytes_of_string (s : string) : list char := list_ascii_of_string s.
Definition bytes_of_range (data : nat -> char) (size : nat) : list char :=
  map data (seq 0 size).

(** ** The reactor implementation ([#ifndef __APPLE__]) *)

Module Reactor.

(** The member functions that are bound and handed to [io.post]. *)
Inductive handler : Type := DoRead | DoWrite | DoClose.

(** [AsyncSerialImpl].  [io_posted] and [io_stopped] stand for [io],
    [port_is_open], [port_reading] and [port_writing] for [port] (the
    numbers count the asynchronous operations that are outstanding),
    [thread_running] for [backgroundThread] being inside
    [io_service::run].  [writeBuffer] is [None] for the null pointer.  The
    last three fields are observation logs. *)
Record AsyncSerialImpl : Type := mkImpl {
  io_posted : list handler;
  io_stopped : bool;
  port_is_open : bool;
  port_reading : nat;
  port_writing : nat;
  thread_running : bool;
  pimpl_open : bool;
  pimpl_error : bool;
  writeQueue : list char;
  writeBuffer : option (list char);
  writeBufferSize : nat;
  readBuffer : list char;
  callback : option callback_fn;
  wire : list char;
  delivered : list (callback_fn * list char);
  console : list string
}.

(** [AsyncSerialImpl()]; [writeBufferSize] is given no initial value by the
    constructor, [readBuffer] neither. *)
Definition init (wbs : nat) (rb : list char) : AsyncSerialImpl :=
  mkImpl [] false false 0 0 false false false [] None wbs rb None [] [] [].

(** Field updates. *)
Definition with_io_posted v (s : AsyncSerialImpl) : AsyncSerialImpl :=
  mkImpl v (io_stopped s) (port_is_open s) (port_reading s) (port_writing s)
    (thread_running s) (pimpl_open s) (pimpl_error s) (writeQueue s)
    (writeBuffer s) (writeBufferSize s) (readBuffer s) (callback s)
    (wire s) (delivered s) (console s).
Definition with_io_stopped v (s : AsyncSerialImpl) : AsyncSerialImpl :=
  mkImpl (io_posted s) v (port_is_open s) (port_reading s) (port_writing s)
    (thread_running s) (pimpl_open s) (pimpl_error s) (writeQueue s)
    (writeBuffer s) (writeBufferSize s) (readBuffer s) (callback s)
    (wire s) (delivered s) (console s).
Definition with_port_is_open v (s : AsyncSerialImpl) : AsyncSerialImpl :=
  mkImpl (io_posted s) (io_stopped s) v (port_reading s) (port_writing s)
    (thread_running s) (pimpl_open s) (pimpl_error s) (writeQueue s)
    (writeBuffer s) (writeBufferSize s) (readBuffer s) (callback s)
    (wire s) (delivered s) (console s).
Definition with_port_reading v (s : AsyncSerialImpl) : AsyncSerialImpl :=
  mkImpl (io_posted s) (io_stopped s) (port_is_open s) v (port_writing s)
    (thread_running s) (pimpl_open s) (pimpl_error s) (writeQueue s)
    (writeBuffer s) (writeBufferSize s) (readBuffer s) (callback s)
    (wire s) (delivered s) (console s).
Definition with_port_writing v (s : AsyncSerialImpl) : AsyncSerialImpl :=
  mkImpl (io_posted s) (io_stopped s) (port_is_open s) (port_reading s) v
    (thread_running s) (pimpl_open s) (pimpl_error s) (writeQueue s)
    (writeBuffer s) (writeBufferSize s) (readBuffer s) (callback s)
    (wire s) (delivered s) (console s).
Definition with_thread_running v (s : AsyncSerialImpl) : AsyncSerialImpl :=
  mkImpl (io_posted s) (io_stopped s) (port_is_open s) (port_reading s)
    (port_writing s) v (pimpl_open s) (pimpl_error s) (writeQueue s)
    (writeBuffer s) (writeBufferSize s) (readBuffer s) (callback s)
    (wire s) (delivered s) (console s).
Definition with_open v (s : AsyncSerialImpl) : AsyncSerialImpl :=
  mkImpl (io_posted s) (io_stopped s) (port_is_open s) (port_reading s)
    (port_writing s) (thread_running s) v (pimpl_error s) (writeQueue s)
    (writeBuffer s) (writeBufferSize s) (readBuffer s) (callback s)
    (wire s) (delivered s) (console s).
Definition with_error v (s : AsyncSerialImpl) : AsyncSerialImpl :=
  mkImpl (io_posted s) (io_stopped s) (port_is_open s) (port_reading s)
    (port_writing s) (thread_running s) (pimpl_open s) v (writeQueue s)
    (writeBuffer s) (writeBufferSize s) (readBuffer s) (callback s)
    (wire s) (delivered s) (console s).
Definition with_writeQueue v (s : AsyncSerialImpl) : AsyncSerialImpl :=
  mkImpl (io_posted s) (io_stopped s) (port_is_open s) (port_reading s)
    (port_writing s) (thread_running s) (pimpl_open s) (pimpl_error s) v
    (writeBuffer s) (writeBufferSize s) (readBuffer s) (callback s)
    (wire s) (delivered s) (console s).
Definition with_writeBuffer v (s : AsyncSerialImpl) : AsyncSerialImpl :=
  mkImpl (io_posted s) (io_stopped s) (port_is_open s) (port_reading s)
    (port_writing s) (thread_running s) (pimpl_open s) (pimpl_error s)
    (writeQueue s) v (writeBufferSize s) (readBuffer s) (callback s)
    (wire s) (delivered s) (console s).
Definition with_writeBufferSize v (s : AsyncSerialImpl) : AsyncSerialImpl :=
  mkImpl (io_posted s) (io_stopped s) (port_is_open s) (port_reading s)
    (port_writing s) (thread_running s) (pimpl_open s) (pimpl_error s)
    (writeQueue s) (writeBuffer s) v (readBuffer s) (callback s)
    (wire s) (delivered s) (console s).
Definition with_readBuffer v (s : AsyncSerialImpl) : AsyncSerialImpl :=
  mkImpl (io_posted s) (io_stopped s) (port_is_open s) (port_reading s)
    (port_writing s) (thread_running s) (pimpl_open s) (pimpl_error s)
    (writeQueue s) (writeBuffer s) (writeBufferSize s) v (callback s)
    (wire s) (delivered s) (console s).
Definition with_callback v (s : AsyncSerialImpl) : AsyncSerialImpl :=
  mkImpl (io_posted s) (io_stopped s) (port_is_open s) (port_reading s)
    (port_writing s) (thread_running s) (pimpl_open s) (pimpl_error s)
    (writeQueue s) (writeBuffer s) (writeBufferSize s) (readBuffer s) v
    (wire s) (delivered s) (console s).
Definition with_wire v (s : AsyncSerialImpl) : AsyncSerialImpl :=
  mkImpl (io_posted s) (io_stopped s) (port_is_open s) (port_reading s)
    (port_writing s) (thread_running s) (pimpl_open s) (pimpl_error s)
    (writeQueue s) (writeBuffer s) (writeBufferSize s) (readBuffer s)
    (callback s) v (delivered s) (console s).
Definition with_delivered v (s : AsyncSerialImpl) : AsyncSerialImpl :=
  mkImpl (io_posted s) (io_stopped s) (port_is_open s) (port_reading s)
    (port_writing s) (thread_running s) (pimpl_open s) (pimpl_error s)
    (writeQueue s) (writeBuffer s) (writeBufferSize s) (readBuffer s)
    (callback s) (wire s) v (console s).
Definition with_console v (s : AsyncSerialImpl) : AsyncSerialImpl :=
  mkImpl (io_posted s) (io_stopped s) (port_is_open s) (port_reading s)
    (port_writing s) (thread_running s) (pimpl_open s) (pimpl_error s)
    (writeQueue s) (writeBuffer s) (writeBufferSize s) (readBuffer s)
    (callback s) (wire s) (delivered s) v.

(** *** Library operations the member functions call *)

(** [pimpl->io.post(boost::bind(&AsyncSerial::h, this))]. *)
Definition io_post (h : handler) (s : AsyncSerialImpl) : AsyncSerialImpl :=
  with_io_posted (io_posted s ++ [h]) s.

(** [async_write(pimpl->port, asio::buffer(p, n), writeEnd)]: one more write
    is outstanding and the [n] bytes at [p] are in the hands of the
    transport. *)
Definition async_write (buf : list char) (n : nat) (s : AsyncSerialImpl)
  : AsyncSerialImpl :=
  with_wire (wire s ++ firstn n buf) (with_port_writing (S (port_writing s)) s).

(** [pimpl->port.async_read_some(asio::buffer(readBuffer, readBufferSize),
    readEnd)]: one more read is outstanding. *)
Definition async_read_some (s : AsyncSerialImpl) : AsyncSerialImpl :=
  with_port_reading (S (port_reading s)) s.

(** [pimpl->port.cancel(ec)] leaves the fields of the model as they are: the
    operations it aborts stay outstanding until their handlers are
    dispatched, which happens with an error code (see [step]).
    [pimpl->port.close(ec)] leaves the port closed. *)
Definition port_cancel (s : AsyncSerialImpl) : AsyncSerialImpl := s.
Definition port_close (s : AsyncSerialImpl) : AsyncSerialImpl :=
  with_port_is_open false s.

(** *** Member functions *)

Definition isOpen (s : AsyncSerialImpl) : bool := pimpl_open s.

Definition errorStatus (s : AsyncSerialImpl) : bool := pimpl_error s.

Definition setErrorStatus (e : bool) (s : AsyncSerialImpl) : AsyncSerialImpl :=
  with_error e s.

Definition setReadCallback (f : callback_fn) (s : AsyncSerialImpl)
  : AsyncSerialImpl :=
  with_callback (Some f) s.

Definition clearReadCallback (s : AsyncSerialImpl) : AsyncSerialImpl :=
  with_callback None s.

(** [write(const char *data, size_t size)]. *)
Definition write (data : nat -> char) (size : nat) (s : AsyncSerialImpl)
  : AsyncSerialImpl :=
  let s := with_writeQueue (writeQueue s ++ bytes_of_range data size) s in
  io_post DoWrite s.

(** [write(const std::vector<char>& data)]. *)
Definition write_vector (data : list char) (s : AsyncSerialImpl)
  : AsyncSerialImpl :=
  let s := with_writeQueue (writeQueue s ++ data) s in
  io_post DoWrite s.

(** [writeString(const std::string& s)]. *)
Definition writeString (str : string) (s : AsyncSerialImpl) : AsyncSerialImpl :=
  let s := with_writeQueue (writeQueue s ++ bytes_of_string str) s in
  io_post DoWrite s.

(** [pimpl->writeBuffer.get()]. *)
Definition writeBuffer_get (s : AsyncSerialImpl) : list char :=
  match writeBuffer s with Some buf => buf | None => [] end.

Definition doRead (s : AsyncSerialImpl) : AsyncSerialImpl :=
  async_read_some s.

(** [doClose]; [fst ecs] and [snd ecs] are the codes that [port.cancel]
    and [port.close] store in [ec]. *)
Definition doClose (ecs : error_code * error_code) (s : AsyncSerialImpl)
  : AsyncSerialImpl :=
  let s := port_cancel s in
  let s := if failed (fst ecs) then setErrorStatus true s else s in
  let s := port_close s in
  let s := if failed (snd ecs) then setErrorStatus true s else s in
  s.

(** [readEnd].  [APPLE] tells whether [__APPLE__] is defined, for the
    [#ifdef] inside the function. *)
Definition readEnd (APPLE : bool) (error : error_code)
    (bytes_transferred : nat) (ecs : error_code * error_code)
    (s : AsyncSerialImpl) : AsyncSerialImpl :=
  if failed error then
    if APPLE && (error =? 45)%Z then doRead s
    else if isOpen s then setErrorStatus true (doClose ecs s)
    else s
  else
    let s :=
      match callback s with
      | Some f =>
          with_delivered
            (delivered s ++ [(f, firstn bytes_transferred (readBuffer s))]) s
      | None => s
      end in
    doRead s.

(** [doWrite]: the drain step. *)
Definition doWrite (s : AsyncSerialImpl) : AsyncSerialImpl :=
  match writeBuffer s with
  | None =>
      let s := with_writeBufferSize (List.length (writeQueue s)) s in
      let s := with_writeBuffer (Some (writeQueue s)) s in
      let s := with_writeQueue [] s in
      async_write (writeBuffer_get s) (writeBufferSize s) s
  | Some _ => s
  end.

(** [writeEnd]: the completion handler of [async_write]. *)
Definition writeEnd (error : error_code) (ecs : error_code * error_code)
    (s : AsyncSerialImpl) : AsyncSerialImpl :=
  if negb (failed error) then
    match writeQueue s with
    | [] =>
        let s := with_writeBuffer None s in
        let s := with_writeBufferSize 0 s in
        s
    | _ :: _ =>
        let s := with_writeBufferSize (List.length (writeQueue s)) s in
        let s := with_writeBuffer (Some (writeQueue s)) s in
        let s := with_writeQueue [] s in
        async_write (writeBuffer_get s) (writeBufferSize s) s
    end
  else
    doClose ecs (setErrorStatus true s).

(** [close()] on an open engine, first statement: [pimpl->open=false]. *)
Definition close_begin (s : AsyncSerialImpl) : AsyncSerialImpl :=
  with_open false s.

(** [close()], second statement: [pimpl->io.post(doClose)]. *)
Definition close_post (s : AsyncSerialImpl) : AsyncSerialImpl :=
  io_post DoClose s.

(** [close()] after the join: [pimpl->io.reset()] and the test of the error
    flag. *)
Definition close_end (s : AsyncSerialImpl) : outcome * AsyncSerialImpl :=
  let s := with_io_stopped false s in
  if errorStatus s then (Thrown "Error while closing the device", s)
  else (Returned, s).

(** *** The background thread and the concurrent callers *)

(** What can happen between two atomic steps of a foreground call.  The
    first four are the moves of the thread inside [io_service::run]: it
    takes the next posted handler, it dispatches the handler of a read or
    of a write that has completed, or it finds no work left and returns.
    The others are calls made by foreground threads.  [ecs] are the error
    codes [port.cancel] and [port.close] give if the handler reaches
    [doClose]. *)
Inductive event : Type :=
| Dispatch (ecs : error_code * error_code)
| ReadComplete (error : error_code) (data : list char)
    (ecs : error_code * error_code)
| WriteComplete (error : error_code) (ecs : error_code * error_code)
| RunReturns
| CallWrite (data : nat -> char) (size : nat)
| CallWriteVector (data : list char)
| CallWriteString (str : string)
| CallSetReadCallback (f : callback_fn)
| CallClearReadCallback.

Definition run_handler (h : handler) (ecs : error_code * error_code)
    (s : AsyncSerialImpl) : AsyncSerialImpl :=
  match h with
  | DoRead => doRead s
  | DoWrite => doWrite s
  | DoClose => doClose ecs s
  end.

(** No handler is posted and no operation is outstanding. *)
Definition out_of_work (s : AsyncSerialImpl) : bool :=
  match io_posted s with [] => true | _ :: _ => false end
  && (port_reading s =? 0) && (port_writing s =? 0).

(** One event; [None] when the event cannot happen in [s].  An operation
    on a closed port completes with an error code, never with success; the
    bytes of a successful read are in [readBuffer] when [readEnd] runs. *)
Definition step (e : event) (s : AsyncSerialImpl) : option AsyncSerialImpl :=
  match e with
  | Dispatch ecs =>
      if thread_running s then
        match io_posted s with
        | h :: hs => Some (run_handler h ecs (with_io_posted hs s))
        | [] => None
        end
      else None
  | ReadComplete error data ecs =>
      if thread_running s && (0 <? port_reading s)
         && (failed error || port_is_open s) then
        let s := with_port_reading (pred (port_reading s)) s in
        if failed error then Some (readEnd false error 0 ecs s)
        else
          let s :=
            with_readBuffer
              (data ++ skipn (List.length data) (readBuffer s)) s in
          Some (readEnd false error (List.length data) ecs s)
      else None
  | WriteComplete error ecs =>
      if thread_running s && (0 <? port_writing s)
         && (failed error || port_is_open s) then
        Some (writeEnd error ecs (with_port_writing (pred (port_writing s)) s))
      else None
  | RunReturns =>
      if thread_running s && out_of_work s then
        Some (with_io_stopped true (with_thread_running false s))
      else None
  | CallWrite data size => Some (write data size s)
  | CallWriteVector data => Some (write_vector data s)
  | CallWriteString str => Some (writeString str s)
  | CallSetReadCallback f => Some (setReadCallback f s)
  | CallClearReadCallback => Some (clearReadCallback s)
  end.

Fixpoint run (evs : list event) (s : AsyncSerialImpl)
  : option AsyncSerialImpl :=
  match evs with
  | [] => Some s
  | e :: evs' =>
      match step e s with
      | Some s' => run evs' s'
      | None => None
      end
  end.

(** [close()].  [before_post] is what happens between the write of the
    flag and the post of [doClose], [during_join] what happens while the
    caller waits in [backgroundThread.join()]; the join returns once the
    thread has left [io_service::run], so a schedule that leaves it running
    is not one of the call ([None]). *)
Definition close (before_post during_join : list event)
    (s : AsyncSerialImpl) : option (outcome * AsyncSerialImpl) :=
  if negb (isOpen s) then Some (Returned, s)
  else
    match run before_post (close_begin s) with
    | Some s =>
        match run during_join (close_post s) with
        | Some s' => if thread_running s' then None else Some (close_end s')
        | None => None
        end
    | None => None
    end.

(** The answers of the library to the calls of [open]: whether
    [port.open(devname)] finds and opens the device, whether each
    [set_option] is accepted, whether the thread can be created. *)
Record open_answers : Type := mkAnswers {
  device_opens : bool;
  baud_rate_accepted : bool;
  parity_accepted : bool;
  csize_accepted : bool;
  flow_accepted : bool;
  stop_accepted : bool;
  thread_starts : bool
}.

(** [thread t(boost::bind(&asio::io_service::run, &pimpl->io))]: on a
    stopped io_service [run] returns at once. *)
Definition thread_start (s : AsyncSerialImpl) : AsyncSerialImpl :=
  if io_stopped s then s else with_thread_running true s.

(** [open], from the console message to [backgroundThread.swap(t)].  The
    library call that fails throws; the message here names the call. *)
Definition open_setup (baud_rate : N) (os : open_answers)
    (s : AsyncSerialImpl) : outcome * AsyncSerialImpl :=
  let s :=
    with_console
      (console s
       ++ [("set baudrate: " ++ NilEmpty.string_of_uint (N.to_uint baud_rate))
           %string]) s in
  let s := setErrorStatus true s in
  if port_is_open s || negb (device_opens os) then (Thrown "open", s) else
  let s := with_port_is_open true s in
  if negb (baud_rate_accepted os) then (Thrown "set_option", s) else
  if negb (parity_accepted os) then (Thrown "set_option", s) else
  if negb (csize_accepted os) then (Thrown "set_option", s) else
  if negb (flow_accepted os) then (Thrown "set_option", s) else
  if negb (stop_accepted os) then (Thrown "set_option", s) else
  let s := io_post DoRead s in
  if negb (thread_starts os) then (Thrown "boost::thread_resource_error", s)
  else (Returned, thread_start s).

(** [open].  [before_post] and [during_join] are the schedules of the
    [close()] it calls when the engine is open; [after_start] is what
    happens between the start of the thread and the writes of the two
    flags. *)
Definition open (baud_rate : N) (os : open_answers)
    (before_post during_join after_start : list event)
    (s : AsyncSerialImpl) : option (outcome * AsyncSerialImpl) :=
  match (if isOpen s then close before_post during_join s
         else Some (Returned, s)) with
  | None => None
  | Some (Thrown what, s) => Some (Thrown what, s)
  | Some (Returned, s) =>
      match open_setup baud_rate os s with
      | (Thrown what, s) => (Some (Thrown what, s))
      | (Returned, s) =>
          match run after_start s with
          | Some s =>
              let s := setErrorStatus false s in
              let s := with_open true s in
              Some (Returned, s)
          | None => None
          end
      end
  end.

(** [AsyncSerial(devname, baud_rate, ...)]: the constructor that opens the
    device; the exception of [open] leaves the constructor. *)
Definition construct_open (wbs : nat) (rb : list char) (baud_rate : N)
    (os : open_answers) (after_start : list event)
  : option (outcome * AsyncSerialImpl) :=
  open baud_rate os [] [] after_start (init wbs rb).

(** [~AsyncSerial()]: the exception of [close()] is caught and dropped. *)
Definition destroy (before_post during_join : list event)
    (s : AsyncSerialImpl) : option AsyncSerialImpl :=
  if isOpen s then
    match close before_post during_join s with
    | Some (_, s') => Some s'
    | None => None
    end
  else Some s.

(** [CallbackAsyncSerial::setCallback], [clearCallback] and
    [~CallbackAsyncSerial()], which is followed by [~AsyncSerial()]. *)
Definition setCallback (f : callback_fn) (s : AsyncSerialImpl)
  : AsyncSerialImpl :=
  setReadCallback f s.

Definition clearCallback (s : AsyncSerialImpl) : AsyncSerialImpl :=
  clearReadCallback s.

Definition destroy_callback (before_post during_join : list event)
    (s : AsyncSerialImpl) : option AsyncSerialImpl :=
  let s := clearReadCallback s in
  destroy before_post during_join s.

End Reactor.

(** ** The blocking-worker implementation ([#else], that is [__APPLE__]) *)

Module BlockingWorker.

(** [AsyncSerialImpl].  [thread_running] stands for [backgroundThread]
    being inside [doRead], [fd_is_open] for the descriptor table of the
    process at [fd].  The last three fields are observation logs. *)
Record AsyncSerialImpl : Type := mkImpl {
  thread_running : bool;
  pimpl_open : bool;
  pimpl_error : bool;
  fd : Z;
  fd_is_open : bool;
  readBuffer : list char;
  callback : option callback_fn;
  wire : list char;
  delivered : list (callback_fn * list char);
  console : list string
}.

(** [AsyncSerialImpl()]; [fd] and [readBuffer] get no initial value. *)
Definition init (fd0 : Z) (rb : list char) : AsyncSerialImpl :=
  mkImpl false false false fd0 false rb None [] [] [].

(** Field updates. *)
Definition with_thread_running v (s : AsyncSerialImpl) : AsyncSerialImpl :=
  mkImpl v (pimpl_open s) (pimpl_error s) (fd s) (fd_is_open s) (readBuffer s)
    (callback s) (wire s) (delivered s) (console s).
Definition with_open v (s : AsyncSerialImpl) : AsyncSerialImpl :=
  mkImpl (thread_running s) v (pimpl_error s) (fd s) (fd_is_open s)
    (readBuffer s) (callback s) (wire s) (delivered s) (console s).
Definition with_error v (s : AsyncSerialImpl) : AsyncSerialImpl :=
  mkImpl (thread_running s) (pimpl_open s) v (fd s) (fd_is_open s)
    (readBuffer s) (callback s) (wire s) (delivered s) (console s).
Definition with_fd v (s : AsyncSerialImpl) : AsyncSerialImpl :=
  mkImpl (thread_running s) (pimpl_open s) (pimpl_error s) v (fd_is_open s)
    (readBuffer s) (callback s) (wire s) (delivered s) (console s).
Definition with_fd_is_open v (s : AsyncSerialImpl) : AsyncSerialImpl :=
  mkImpl (thread_running s) (pimpl_open s) (pimpl_error s) (fd s) v
    (readBuffer s) (callback s) (wire s) (delivered s) (console s).
Definition with_readBuffer v (s : AsyncSerialImpl) : AsyncSerialImpl :=
  mkImpl (thread_running s) (pimpl_open s) (pimpl_error s) (fd s)
    (fd_is_open s) v (callback s) (wire s) (delivered s) (console s).
Definition with_callback v (s : AsyncSerialImpl) : AsyncSerialImpl :=
  mkImpl (thread_running s) (pimpl_open s) (pimpl_error s) (fd s)
    (fd_is_open s) (readBuffer s) v (wire s) (delivered s) (console s).
Definition with_wire v (s : AsyncSerialImpl) : AsyncSerialImpl :=
  mkImpl (thread_running s) (pimpl_open s) (pimpl_error s) (fd s)
    (fd_is_open s) (readBuffer s) (callback s) v (delivered s) (console s).
Definition with_delivered v (s : AsyncSerialImpl) : AsyncSerialImpl :=
  mkImpl (thread_running s) (pimpl_open s) (pimpl_error s) (fd s)
    (fd_is_open s) (readBuffer s) (callback s) (wire s) v (console s).
Definition with_console v (s : AsyncSerialImpl) : AsyncSerialImpl :=
  mkImpl (thread_running s) (pimpl_open s) (pimpl_error s) (fd s)
    (fd_is_open s) (readBuffer s) (callback s) (wire s) (delivered s) v.

(** *** System calls *)

(** [std::cout << msg << std::endl]. *)
Definition print (msg : string) (s : AsyncSerialImpl) : AsyncSerialImpl :=
  with_console (console s ++ [msg]) s.

(** [::write(pimpl->fd, p, n)] returning [r]: the first [r] bytes are
    in the hands of the transport, none when [r] is negative. *)
Definition sys_write (r : Z) (bytes : list char) (s : AsyncSerialImpl)
  : AsyncSerialImpl :=
  with_wire (wire s ++ firstn (Z.to_nat r) bytes) s.

(** The conversion of the [ssize_t] result of [::write] to [size_t] that
    the comparison with a [size_t] performs. *)
Definition to_size_t (r : Z) : Z := (r mod 2 ^ 64)%Z.

(** *** Member functions *)

Definition isOpen (s : AsyncSerialImpl) : bool := pimpl_open s.

Definition errorStatus (s : AsyncSerialImpl) : bool := pimpl_error s.

Definition setErrorStatus (e : bool) (s : AsyncSerialImpl) : AsyncSerialImpl :=
  with_error e s.

Definition setReadCallback (f : callback_fn) (s : AsyncSerialImpl)
  : AsyncSerialImpl :=
  with_callback (Some f) s.

Definition clearReadCallback (s : AsyncSerialImpl) : AsyncSerialImpl :=
  with_callback None s.

(** [write(const char *data, size_t size)]; [r] is what [::write] returns. *)
Definition write (r : Z) (data : nat -> char) (size : nat)
    (s : AsyncSerialImpl) : AsyncSerialImpl :=
  let s := sys_write r (bytes_of_range data size) s in
  if negb (to_size_t r =? Z.of_nat size)%Z then setErrorStatus true s else s.

(** [write(const std::vector<char>& data)]. *)
Definition write_vector (r : Z) (data : list char) (s : AsyncSerialImpl)
  : AsyncSerialImpl :=
  let s := sys_write r data s in
  if negb (to_size_t r =? Z.of_nat (List.length data))%Z
  then setErrorStatus true s else s.

(** [writeString(const std::string& s)]. *)
Definition writeString (r : Z) (str : string) (s : AsyncSerialImpl)
  : AsyncSerialImpl :=
  let s := sys_write r (bytes_of_string str) s in
  if negb (to_size_t r =? Z.of_nat (String.length str))%Z
  then setErrorStatus true s else s.

(** One turn of the [for(;;)] of [doRead], after [::read] has returned
    [received]; the first component tells whether the loop goes on
    ([false] for [return]). *)
Definition doRead_iteration (received : Z) (s : AsyncSerialImpl)
  : bool * AsyncSerialImpl :=
  if (received <? 0)%Z then
    if Bool.eqb (isOpen s) false then (false, s)
    else (true, setErrorStatus true s)
  else
    match callback s with
    | Some f =>
        (true,
         with_delivered
           (delivered s ++ [(f, firstn (Z.to_nat received) (readBuffer s))]) s)
    | None => (true, s)
    end.

(** [readEnd], [doWrite], [writeEnd], [doClose]: "Not used". *)
Definition readEnd (error : error_code) (bytes_transferred : nat)
    (s : AsyncSerialImpl) : AsyncSerialImpl := s.
Definition doWrite (s : AsyncSerialImpl) : AsyncSerialImpl := s.
Definition writeEnd (error : error_code) (s : AsyncSerialImpl)
  : AsyncSerialImpl := s.
Definition doClose (s : AsyncSerialImpl) : AsyncSerialImpl := s.

(** *** The background thread and the concurrent callers *)

(** [ReadReturns received data]: the [::read] the thread is blocked in
    returns [received], having stored [data] in [readBuffer], and the
    thread does one turn of its loop.  The others are calls made by
    foreground threads; [r] is what their [::write] returns. *)
Inductive event : Type :=
| ReadReturns (received : Z) (data : list char)
| CallWrite (r : Z) (data : nat -> char) (size : nat)
| CallWriteVector (r : Z) (data : list char)
| CallWriteString (r : Z) (str : string)
| CallSetReadCallback (f : callback_fn)
| CallClearReadCallback.

(** One event; [None] when it cannot happen in [s].  A [::read] on a
    closed descriptor fails; one that succeeds has stored as many bytes as
    it returns. *)
Definition step (e : event) (s : AsyncSerialImpl) : option AsyncSerialImpl :=
  match e with
  | ReadReturns received data =>
      if thread_running s
         && (if (received <? 0)%Z then true
             else fd_is_open s && (Z.of_nat (List.length data) =? received)%Z)
      then
        let s :=
          if (received <? 0)%Z then s
          else
            with_readBuffer
              (data ++ skipn (List.length data) (readBuffer s)) s in
        let (goes_on, s) := doRead_iteration received s in
        Some (if goes_on then s else with_thread_running false s)
      else None
  | CallWrite r data size => Some (write r data size s)
  | CallWriteVector r data => Some (write_vector r data s)
  | CallWriteString r str => Some (writeString r str s)
  | CallSetReadCallback f => Some (setReadCallback f s)
  | CallClearReadCallback => Some (clearReadCallback s)
  end.

Fixpoint run (evs : list event) (s : AsyncSerialImpl)
  : option AsyncSerialImpl :=
  match evs with
  | [] => Some s
  | e :: evs' =>
      match step e s with
      | Some s' => run evs' s'
      | None => None
      end
  end.

(** [doRead]: the loop, fed with the results of its successive reads when
    nothing else happens in between.  The first component tells whether
    the loop is still going after the last of them. *)
Fixpoint doRead (reads : list Z) (s : AsyncSerialImpl)
  : bool * AsyncSerialImpl :=
  match reads with
  | [] => (true, s)
  | received :: reads' =>
      let (goes_on, s') := doRead_iteration received s in
      if goes_on then doRead reads' s' else (false, s')
  end.

(** [close()] up to [pimpl->backgroundThread.join()], for an open engine. *)
Definition close_begin (s : AsyncSerialImpl) : AsyncSerialImpl :=
  let s := with_open false s in
  with_fd_is_open false s.

(** [close()] after the join. *)
Definition close_end (s : AsyncSerialImpl) : outcome * AsyncSerialImpl :=
  if errorStatus s then (Thrown "Error while closing the device", s)
  else (Returned, s).

(** [close()]; [evs] is what happens while the caller waits in the join. *)
Definition close (evs : list event) (s : AsyncSerialImpl)
  : option (outcome * AsyncSerialImpl) :=
  if negb (isOpen s) then Some (Returned, s)
  else
    match run evs (close_begin s) with
    | Some s' => if thread_running s' then None else Some (close_end s')
    | None => None
    end.

(** What the system answers to the calls of [open]: the descriptor that
    [::open] returns, the status of each configuration call, and whether
    the thread can be created. *)
Record open_answers : Type := mkAnswers {
  open_result : Z;
  tiocexcl_status : Z;
  setfl_status : Z;
  tcgetattr_status : Z;
  tcsetattr_status : Z;
  iossiospeed_status : Z;
  thread_starts : bool
}.

(** The part of [open] between the two calls of [setErrorStatus]: the
    device is opened and configured; a negative status is reported on the
    console. *)
Definition open_configure (os : open_answers) (s : AsyncSerialImpl)
  : AsyncSerialImpl :=
  let s := with_fd (open_result os) s in
  let s := with_fd_is_open (0 <=? open_result os)%Z s in
  let s := if (tiocexcl_status os <? 0)%Z
           then print "ioctl(pimpl->fd, TIOCEXCL)" s else s in
  let s := if (setfl_status os <? 0)%Z
           then print "fcntl(pimpl->fd, F_SETFL, 0)" s else s in
  let s := if (tcgetattr_status os <? 0)%Z
           then print "tcgetattr(pimpl->fd, &options)" s else s in
  let s := if (tcsetattr_status os <? 0)%Z
           then print "tcsetattr(pimpl->fd, TCSANOW, &options)" s else s in
  let s := if (iossiospeed_status os <? 0)%Z
           then print "ioctl(pimpl->fd, IOSSIOSPEED, &new_baud)" s else s in
  s.

(** [open].  [evs] is the schedule of the join of the [close()] it calls
    when the engine is open. *)
Definition open (os : open_answers) (evs : list event) (s : AsyncSerialImpl)
  : option (outcome * AsyncSerialImpl) :=
  match (if isOpen s then close evs s else Some (Returned, s)) with
  | None => None
  | Some (Thrown what, s) => Some (Thrown what, s)
  | Some (Returned, s) =>
      let s := setErrorStatus true s in
      let s := open_configure os s in
      let s := setErrorStatus false s in
      let s := with_open true s in
      if negb (thread_starts os)
      then Some (Thrown "boost::thread_resource_error", s)
      else Some (Returned, with_thread_running true s)
  end.

(** [AsyncSerial(devname, baud_rate, ...)]: the constructor that opens the
    device; [fd0] and [rb] are what the uninitialised fields hold. *)
Definition construct_open (fd0 : Z) (rb : list char) (os : open_answers)
    (evs : list event) : option (outcome * AsyncSerialImpl) :=
  open os evs (init fd0 rb).

(** [~AsyncSerial()]: the exception of [close()] is caught and dropped. *)
Definition destroy (evs : list event) (s : AsyncSerialImpl)
  : option AsyncSerialImpl :=
  if isOpen s then
    match close evs s with
    | Some (_, s') => Some s'
    | None => None
    end
  else Some s.

(** [CallbackAsyncSerial::setCallback], [clearCallback] and
    [~CallbackAsyncSerial()], which is followed by [~AsyncSerial()]. *)
Definition setCallback (f : callback_fn) (s : AsyncSerialImpl)
  : AsyncSerialImpl :=
  setReadCallback f s.

Definition clearCallback (s : AsyncSerialImpl) : AsyncSerialImpl :=
  clearReadCallback s.

Definition destroy_callback (evs : list event) (s : AsyncSerialImpl)
  : option AsyncSerialImpl :=
  let s := clearReadCallback s in
  destroy evs s.

End BlockingWorker.

(** ** The function the build selects *)

(** The state of the engine in a build where [__APPLE__] is defined
    ([APPLE = true]) or not. *)
Definition engine (APPLE : bool) : Type :=
  if APPLE then BlockingWorker.AsyncSerialImpl else Reactor.AsyncSerialImpl.

(** [AsyncSerial::readEnd] as the preprocessor leaves it: the body under
    [#else] when [__APPLE__] is defined, the body under [#ifndef __APPLE__],
    with its inner [#ifdef __APPLE__], when it is not. *)
Definition readEnd (APPLE : bool)
  : error_code -> nat -> error_code * error_code -> engine APPLE
    -> engine APPLE :=
  match APPLE as b
    return error_code -> nat -> error_code * error_code -> engine b
           -> engine b with
  | true => fun error bytes_transferred _ s =>
      BlockingWorker.readEnd error bytes_transferred s
  | false => fun error bytes_transferred ecs s =>
      Reactor.readEnd false error bytes_transferred ecs s
  end.

(** ** Vocabulary of the statements *)

Module ReactorSpec.
Import Reactor.

(** The bytes a call event passes to the engine. *)
Definition written_by (e : event) : list char :=
  match e with
  | CallWrite data size => bytes_of_range data size
  | CallWriteVector data => data
  | CallWriteString str => bytes_of_string str
  | _ => []
  end.

(** Events that are foreground calls, not moves of the background thread. *)
Definition is_call (e : event) : bool :=
  match e with
  | Dispatch _ | ReadComplete _ _ _ | WriteComplete _ _ | RunReturns => false
  | _ => true
  end.

Definition handler_eq_dec (h1 h2 : handler) : {h1 = h2} + {h1 <> h2}.
Proof. decide equality. Defined.

(** The states an engine can be in between two calls or events, starting
    from a freshly constructed one. *)
Inductive reachable : AsyncSerialImpl -> Prop :=
| reach_init wbs rb : reachable (init wbs rb)
| reach_event e s s' : reachable s -> step e s = Some s' -> reachable s'
| reach_open baud_rate os before_post during_join after_start s r s' :
    reachable s ->
    open baud_rate os before_post during_join after_start s = Some (r, s') ->
    reachable s'
| reach_close before_post during_join s r s' :
    reachable s -> close before_post during_join s = Some (r, s') ->
    reachable s'.

(** Between two calls, while the engine is not marked open no thread runs
    and the io_service is ready to run again. *)
Definition idle_inv (s : AsyncSerialImpl) : Prop :=
  pimpl_open s = false -> thread_running s = false /\ io_stopped s = false.

(** Between two calls, on an engine marked open the error flag is set only
    once the port is closed. *)
Definition error_inv (s : AsyncSerialImpl) : Prop :=
  pimpl_open s = true -> pimpl_error s = true -> port_is_open s = false.

(** During the join of [close]: the port is closed already, or the thread
    still runs and has [doClose] to run. *)
Definition closing_inv (s : AsyncSerialImpl) : Prop :=
  pimpl_open s = false
  /\ (port_is_open s = false
      \/ (thread_running s = true /\ In DoClose (io_posted s))).

(** At most one write is outstanding, and [writeBuffer] is not null while
    one is. *)
Definition write_inv (s : AsyncSerialImpl) : Prop :=
  port_writing s <= 1 /\ (port_writing s = 1 -> writeBuffer s <> None).

(** A schedule for the join of [close], from the state [s0] in which the
    caller starts to wait: the thread runs the handlers that are posted,
    then the outstanding reads and writes complete with the code of an
    aborted operation, then [run] is out of work and returns. *)
Definition join_schedule (s0 : AsyncSerialImpl) : list event :=
  if thread_running s0 then
    let dispatches :=
      repeat (Dispatch no_errors) (List.length (io_posted s0)) in
    match run dispatches s0 with
    | Some s1 =>
        dispatches
        ++ repeat (ReadComplete 125 [] no_errors) (port_reading s1)
        ++ repeat (WriteComplete 125 no_errors) (port_writing s1)
        ++ [RunReturns]
    | None => []
    end
  else [].

(** The same with the converse: [writeBuffer] is null exactly while no
    write is outstanding. *)
Definition write_sync (s : AsyncSerialImpl) : Prop :=
  port_writing s <= 1 /\ (writeBuffer s = None <-> port_writing s = 0).

(** The event is the completion of a write with an error code. *)
Definition is_write_failure (e : event) : bool :=
  match e with
  | WriteComplete error _ => failed error
  | _ => false
  end.

(** An engine that is open and reading, with callback 1 registered, as
    [open], [setReadCallback] and the first dispatch leave it. *)
Definition open_and_reading : AsyncSerialImpl :=
  with_callback (Some 1)
    (with_port_reading 1
       (with_thread_running true
          (with_port_is_open true (with_open true (init 0 []))))).

(** What the callbacks receive along a list of events, [cb] being the
    callback registered at its start: the bytes of each read that
    completes without error, for the callback registered at that time. *)
Fixpoint deliveries (cb : option callback_fn) (evs : list event)
  : list (callback_fn * list char) :=
  match evs with
  | [] => []
  | ReadComplete error data _ :: evs' =>
      (if failed error then []
       else match cb with Some f => [(f, data)] | None => [] end)
      ++ deliveries cb evs'
  | CallSetReadCallback f :: evs' => deliveries (Some f) evs'
  | CallClearReadCallback :: evs' => deliveries None evs'
  | _ :: evs' => deliveries cb evs'
  end.

(** The event registers a callback. *)
Definition sets_callback (e : event) : bool :=
  match e with
  | CallSetReadCallback _ => true
  | _ => false
  end.

(** The reads that are outstanding or about to be armed. *)
Definition read_tokens (s : AsyncSerialImpl) : nat :=
  port_reading s + count_occ handler_eq_dec (io_posted s) DoRead.

(** At most one read is outstanding or about to be armed; when no thread
    runs there is none, except on the port left open by an [open] that
    could not create its thread. *)
Definition read_inv (s : AsyncSerialImpl) : Prop :=
  read_tokens s <= 1
  /\ (thread_running s = false ->
      read_tokens s = 0 \/ port_is_open s = true).

(** Answers of the library with which [open] goes through. *)
Definition all_accepted : open_answers :=
  mkAnswers true true true true true true true.

End ReactorSpec.

Module WorkerSpec.
Import BlockingWorker.

(** What [open] prints for the configuration calls that fail. *)
Definition configuration_messages (os : open_answers) : list string :=
  (if (tiocexcl_status os <? 0)%Z
   then ["ioctl(pimpl->fd, TIOCEXCL)"%string] else [])
  ++ (if (setfl_status os <? 0)%Z
      then ["fcntl(pimpl->fd, F_SETFL, 0)"%string] else [])
  ++ (if (tcgetattr_status os <? 0)%Z
      then ["tcgetattr(pimpl->fd, &options)"%string] else [])
  ++ (if (tcsetattr_status os <? 0)%Z
      then ["tcsetattr(pimpl->fd, TCSANOW, &options)"%string] else [])
  ++ (if (iossiospeed_status os <? 0)%Z
      then ["ioctl(pimpl->fd, IOSSIOSPEED, &new_baud)"%string] else []).

(** Answers of the system: the device opens as descriptor 3, the thread
    starts, and [tcsetattr] rejects the attributes. *)
Definition tcsetattr_rejected : open_answers :=
  mkAnswers 3 0 0 0 (-1) 0 true.

(** An engine that is open on descriptor 3, with callback 7 registered and
    its thread in the read loop. *)
Definition open_and_looping : AsyncSerialImpl :=
  with_callback (Some 7)
    (with_thread_running true
       (with_fd_is_open true (with_open true (init 3 [])))).

(** The states an engine can be in between two calls or events, starting
    from a freshly constructed one. *)
Inductive reachable : AsyncSerialImpl -> Prop :=
| reach_init fd0 rb : reachable (init fd0 rb)
| reach_event e s s' : reachable s -> step e s = Some s' -> reachable s'
| reach_open os evs s r s' :
    reachable s -> open os evs s = Some (r, s') -> reachable s'
| reach_close evs s r s' :
    reachable s -> close evs s = Some (r, s') -> reachable s'.

(** What the callbacks receive along a list of events, [cb] being the
    callback registered at its start. *)
Fixpoint deliveries (cb : option callback_fn) (evs : list event)
  : list (callback_fn * list char) :=
  match evs with
  | [] => []
  | ReadReturns received data :: evs' =>
      (if (received <? 0)%Z then []
       else match cb with Some f => [(f, data)] | None => [] end)
      ++ deliveries cb evs'
  | CallSetReadCallback f :: evs' => deliveries (Some f) evs'
  | CallClearReadCallback :: evs' => deliveries None evs'
  | _ :: evs' => deliveries cb evs'
  end.

(** The event registers a callback. *)
Definition sets_callback (e : event) : bool :=
  match e with
  | CallSetReadCallback _ => true
  | _ => false
  end.

End WorkerSpec.

(** ** Facts about the shared vocabulary *)

Lemma bytes_of_range_length (data : nat -> char) (size : nat) :
  List.length (bytes_of_range data size) = size.
Proof.
  unfold bytes_of_range. now rewrite length_map, length_seq.
Qed.

Lemma bytes_of_string_length (str : string) :
  List.length (bytes_of_string str) = String.length str.
Proof.
  unfold bytes_of_string.
  induction str as [|c str IH]; simpl; [reflexivity | now rewrite IH].
Qed.

(** ** The write channel of the reactor *)

Section ReactorWriteChannel.
Import Reactor ReactorSpec.

Lemma write_appends (data : nat -> char) (size : nat) (s : AsyncSerialImpl) :
  writeQueue (write data size s) = writeQueue s ++ bytes_of_range data size
  /\ wire (write data size s) = wire s
  /\ writeBuffer (write data size s) = writeBuffer s.
Proof. repeat split. Qed.

Lemma doWrite_idle (s : AsyncSerialImpl) :
  writeBuffer s = None ->
  wire (doWrite s) = wire s ++ writeQueue s
  /\ writeBuffer (doWrite s) = Some (writeQueue s)
  /\ writeQueue (doWrite s) = []
  /\ port_writing (doWrite s) = S (port_writing s).
Proof.
  intros Hnull. unfold doWrite. rewrite Hnull. simpl.
  now rewrite firstn_all.
Qed.

Lemma doWrite_busy (s : AsyncSerialImpl) :
  writeBuffer s <> None -> doWrite s = s.
Proof.
  intros Hbusy. unfold doWrite. destruct (writeBuffer s); congruence.
Qed.

Lemma writeEnd_success (ecs : error_code * error_code) (s : AsyncSerialImpl) :
  wire (writeEnd 0 ecs s) = wire s ++ writeQueue s
  /\ writeQueue (writeEnd 0 ecs s) = []
  /\ writeBuffer_get (writeEnd 0 ecs s) = writeQueue s
  /\ (writeBuffer (writeEnd 0 ecs s) = None <-> writeQueue s = []).
Proof.
  unfold writeEnd. simpl. destruct (writeQueue s) as [|c q] eqn:Hq; simpl.
  - rewrite app_nil_r. repeat split; intros; auto.
  - change (S (List.length q)) with (List.length (c :: q)).
    rewrite firstn_all. repeat split; intros; discriminate.
Qed.

Lemma doClose_frame (ecs : error_code * error_code) (s : AsyncSerialImpl) :
  wire (doClose ecs s) = wire s
  /\ writeQueue (doClose ecs s) = writeQueue s
  /\ writeBuffer (doClose ecs s) = writeBuffer s
  /\ port_writing (doClose ecs s) = port_writing s
  /\ port_reading (doClose ecs s) = port_reading s
  /\ delivered (doClose ecs s) = delivered s
  /\ pimpl_open (doClose ecs s) = pimpl_open s
  /\ io_posted (doClose ecs s) = io_posted s
  /\ thread_running (doClose ecs s) = thread_running s
  /\ io_stopped (doClose ecs s) = io_stopped s
  /\ port_is_open (doClose ecs s) = false.
Proof.
  unfold doClose, port_cancel, port_close, setErrorStatus.
  destruct (failed (fst ecs)), (failed (snd ecs)); simpl; repeat split.
Qed.

Lemma readEnd_frame (error : error_code) (n : nat)
    (ecs : error_code * error_code) (s : AsyncSerialImpl) :
  wire (readEnd false error n ecs s) = wire s
  /\ writeQueue (readEnd false error n ecs s) = writeQueue s
  /\ writeBuffer (readEnd false error n ecs s) = writeBuffer s
  /\ port_writing (readEnd false error n ecs s) = port_writing s
  /\ pimpl_open (readEnd false error n ecs s) = pimpl_open s
  /\ io_posted (readEnd false error n ecs s) = io_posted s
  /\ thread_running (readEnd false error n ecs s) = thread_running s
  /\ io_stopped (readEnd false error n ecs s) = io_stopped s.
Proof.
  unfold readEnd, isOpen. simpl.
  destruct (failed error).
  - destruct (pimpl_open s) eqn:Hopen; [|repeat split; auto].
    unfold setErrorStatus. simpl.
    destruct (doClose_frame ecs s)
      as (Hw & Hq & Hb & Hpw & _ & _ & Ho & Hp & Ht & Hs & _).
    rewrite Hw, Hq, Hb, Hpw, Ho, Hp, Ht, Hs. repeat split; auto.
  - destruct (callback s); repeat split.
Qed.

Lemma doWrite_conserves (s : AsyncSerialImpl) :
  wire (doWrite s) ++ writeQueue (doWrite s) = wire s ++ writeQueue s.
Proof.
  destruct (writeBuffer s) as [buf|] eqn:Hbuf.
  - rewrite doWrite_busy by congruence. reflexivity.
  - destruct (doWrite_idle s Hbuf) as (Hw & _ & Hq & _).
    rewrite Hw, Hq. apply app_nil_r.
Qed.

Lemma writeEnd_conserves (error : error_code) (ecs : error_code * error_code)
    (s : AsyncSerialImpl) :
  wire (writeEnd error ecs s) ++ writeQueue (writeEnd error ecs s)
  = wire s ++ writeQueue s.
Proof.
  destruct (failed error) eqn:Hec.
  - unfold writeEnd. rewrite Hec. simpl.
    destruct (doClose_frame ecs (setErrorStatus true s)) as (Hw & Hq & _).
    rewrite Hw, Hq. reflexivity.
  - assert (error = 0%Z) as ->.
    { unfold failed in Hec. apply negb_false_iff in Hec.
      now apply Z.eqb_eq in Hec. }
    destruct (writeEnd_success ecs s) as (Hw & Hq & _).
    rewrite Hw, Hq. apply app_nil_r.
Qed.

(** Every event leaves the bytes where they are, in order: handed to the
    transport or still in the queue. *)
Lemma step_conserves (e : event) (s s' : AsyncSerialImpl) :
  step e s = Some s' ->
  wire s' ++ writeQueue s' = wire s ++ writeQueue s ++ written_by e.
Proof.
  destruct e as [ecs|error data ecs|error ecs| |data size|data|str|f|];
    simpl; intros Hstep.
  - destruct (thread_running s); [|discriminate].
    destruct (io_posted s) as [|h hs]; [discriminate|].
    injection Hstep as <-. rewrite app_nil_r.
    destruct h; simpl.
    + reflexivity.
    + apply (doWrite_conserves (with_io_posted hs s)).
    + destruct (doClose_frame ecs (with_io_posted hs s)) as (Hw & Hq & _).
      now rewrite Hw, Hq.
  - destruct (thread_running s && (0 <? port_reading s)
              && (failed error || port_is_open s)); [|discriminate].
    rewrite app_nil_r.
    destruct (failed error); injection Hstep as <-;
      match goal with
      | |- context [readEnd false ?a ?b ?c ?d] =>
          destruct (readEnd_frame a b c d) as (Hw & Hq & _)
      end; now rewrite Hw, Hq.
  - destruct (thread_running s && (0 <? port_writing s)
              && (failed error || port_is_open s)); [|discriminate].
    injection Hstep as <-. rewrite app_nil_r.
    apply (writeEnd_conserves error ecs
             (with_port_writing (pred (port_writing s)) s)).
  - destruct (thread_running s && out_of_work s); [|discriminate].
    injection Hstep as <-. simpl. now rewrite app_nil_r.
  - injection Hstep as <-. simpl. now rewrite app_assoc.
  - injection Hstep as <-. simpl. now rewrite app_assoc.
  - injection Hstep as <-. simpl. now rewrite app_assoc.
  - injection Hstep as <-. simpl. now rewrite app_nil_r.
  - injection Hstep as <-. simpl. now rewrite app_nil_r.
Qed.

Lemma run_conserves (evs : list event) :
  forall s s' : AsyncSerialImpl,
  run evs s = Some s' ->
  wire s' ++ writeQueue s'
  = wire s ++ writeQueue s ++ List.concat (map written_by evs).
Proof.
  induction evs as [|e evs IH]; simpl; intros s s' Hrun.
  - injection Hrun as <-. now rewrite app_nil_r.
  - destruct (step e s) as [s1|] eqn:Hstep; [|discriminate].
    rewrite (IH _ _ Hrun), app_assoc, (step_conserves _ _ _ Hstep).
    now rewrite <- !app_assoc.
Qed.

(** Calls alone only lengthen the queue. *)
Lemma run_calls (evs : list event) :
  forall s s' : AsyncSerialImpl,
  forallb is_call evs = true ->
  run evs s = Some s' ->
  writeQueue s' = writeQueue s ++ List.concat (map written_by evs)
  /\ wire s' = wire s
  /\ writeBuffer s' = writeBuffer s.
Proof.
  induction evs as [|e evs IH]; simpl; intros s s' Hcalls Hrun.
  - injection Hrun as <-. now rewrite app_nil_r.
  - apply andb_true_iff in Hcalls as [Hcall Hcalls].
    destruct (step e s) as [s1|] eqn:Hstep; [|discriminate].
    destruct (IH _ _ Hcalls Hrun) as (Hq & Hw & Hb).
    rewrite Hq, Hw, Hb.
    destruct e; try discriminate; simpl in Hstep; injection Hstep as <-;
      simpl; rewrite <- ?app_assoc, ?app_nil_r; auto.
Qed.



End ReactorWriteChannel.

(** ** Events of the reactor: what they keep *)

(** Case analysis on the guards of [Reactor.step] in [Hstep]. *)
Ltac step_cases Hstep :=
  simpl in Hstep;
  repeat match type of Hstep with
  | (if ?c then _ else _) = Some _ =>
      let Hc := fresh "Hc" in
      destruct c eqn:Hc; [|discriminate Hstep]
  | match Reactor.io_posted ?s with _ => _ end = Some _ =>
      let Hp := fresh "Hposted" in
      destruct (Reactor.io_posted s) as [|? ?] eqn:Hp; [discriminate Hstep|]
  end.

Section ReactorEvents.
Import Reactor ReactorSpec.

Lemma doWrite_frame (s : AsyncSerialImpl) :
  pimpl_open (doWrite s) = pimpl_open s
  /\ pimpl_error (doWrite s) = pimpl_error s
  /\ port_is_open (doWrite s) = port_is_open s
  /\ port_reading (doWrite s) = port_reading s
  /\ delivered (doWrite s) = delivered s
  /\ io_posted (doWrite s) = io_posted s
  /\ thread_running (doWrite s) = thread_running s
  /\ io_stopped (doWrite s) = io_stopped s.
Proof.
  unfold doWrite. destruct (writeBuffer s); repeat split.
Qed.

Lemma writeEnd_frame (error : error_code) (ecs : error_code * error_code)
    (s : AsyncSerialImpl) :
  pimpl_open (writeEnd error ecs s) = pimpl_open s
  /\ port_reading (writeEnd error ecs s) = port_reading s
  /\ delivered (writeEnd error ecs s) = delivered s
  /\ io_posted (writeEnd error ecs s) = io_posted s
  /\ thread_running (writeEnd error ecs s) = thread_running s
  /\ io_stopped (writeEnd error ecs s) = io_stopped s
  /\ (port_is_open s = false -> port_is_open (writeEnd error ecs s) = false)
  /\ (pimpl_error s = true -> pimpl_error (writeEnd error ecs s) = true).
Proof.
  unfold writeEnd. destruct (failed error); simpl.
  - unfold doClose, port_cancel, port_close, setErrorStatus.
    destruct (failed (fst ecs)), (failed (snd ecs)); simpl; repeat split.
  - destruct (writeQueue s); simpl; repeat split; auto.
Qed.

Lemma doClose_error (ecs : error_code * error_code) (s : AsyncSerialImpl) :
  pimpl_error s = true -> pimpl_error (doClose ecs s) = true.
Proof.
  unfold doClose, port_cancel, port_close, setErrorStatus.
  destruct (failed (fst ecs)), (failed (snd ecs)); simpl; auto.
Qed.

Lemma readEnd_error (error : error_code) (n : nat)
    (ecs : error_code * error_code) (s : AsyncSerialImpl) :
  pimpl_error s = true -> pimpl_error (readEnd false error n ecs s) = true.
Proof.
  unfold readEnd, isOpen. simpl. intros Herr.
  destruct (failed error).
  - destruct (pimpl_open s); auto.
  - destruct (callback s); auto.
Qed.

(** No event changes the open flag. *)
Lemma step_open_flag (e : event) (s s' : AsyncSerialImpl) :
  step e s = Some s' -> pimpl_open s' = pimpl_open s.
Proof.
  destruct e as [ecs|error data ecs|error ecs| |data size|data|str|f|];
    intros Hstep; step_cases Hstep; try (injection Hstep as <-; reflexivity).
  - injection Hstep as <-. destruct h; simpl.
    + reflexivity.
    + apply (doWrite_frame (with_io_posted l s)).
    + apply (doClose_frame ecs (with_io_posted l s)).
  - destruct (failed error); injection Hstep as <-;
      match goal with
      | |- context [readEnd false ?a ?b ?c ?d] =>
          destruct (readEnd_frame a b c d) as (_ & _ & _ & _ & Ho & _)
      end; exact Ho.
  - injection Hstep as <-.
    apply (writeEnd_frame error ecs
             (with_port_writing (pred (port_writing s)) s)).
Qed.

(** No event clears the error flag. *)
Lemma step_error_stays (e : event) (s s' : AsyncSerialImpl) :
  step e s = Some s' -> pimpl_error s = true -> pimpl_error s' = true.
Proof.
  destruct e as [ecs|error data ecs|error ecs| |data size|data|str|f|];
    intros Hstep Herr; step_cases Hstep;
    try (injection Hstep as <-; exact Herr).
  - injection Hstep as <-. destruct h; simpl.
    + exact Herr.
    + now rewrite (proj1 (proj2 (doWrite_frame (with_io_posted l s)))).
    + now apply doClose_error.
  - destruct (failed error); injection Hstep as <-;
      now apply readEnd_error.
  - injection Hstep as <-.
    now apply (writeEnd_frame error ecs
                 (with_port_writing (pred (port_writing s)) s)).
Qed.

(** On a closed port no event reopens the port and none invokes the
    callback. *)
Lemma step_closed_port (e : event) (s s' : AsyncSerialImpl) :
  step e s = Some s' -> port_is_open s = false ->
  port_is_open s' = false /\ delivered s' = delivered s.
Proof.
  destruct e as [ecs|error data ecs|error ecs| |data size|data|str|f|];
    intros Hstep Hclosed; step_cases Hstep;
    try (injection Hstep as <-; split; [exact Hclosed | reflexivity]).
  - injection Hstep as <-. destruct h; simpl.
    + split; [exact Hclosed | reflexivity].
    + destruct (doWrite_frame (with_io_posted l s))
        as (_ & _ & Hp & _ & Hd & _).
      rewrite Hp, Hd. split; [exact Hclosed | reflexivity].
    + destruct (doClose_frame ecs (with_io_posted l s))
        as (_ & _ & _ & _ & _ & Hd & _ & _ & _ & _ & Hp).
      rewrite Hp, Hd. split; reflexivity.
  - rewrite Hclosed, orb_false_r in Hc.
    apply andb_true_iff in Hc as [_ Hfailed]. rewrite Hfailed in Hstep.
    injection Hstep as <-. unfold readEnd, isOpen. rewrite Hfailed. simpl.
    destruct (pimpl_open s); [|split; [exact Hclosed | reflexivity]].
    unfold setErrorStatus. simpl.
    destruct (doClose_frame ecs
                (with_port_reading (pred (port_reading s)) s))
      as (_ & _ & _ & _ & _ & Hd & _ & _ & _ & _ & Hp).
    rewrite Hp, Hd. split; reflexivity.
  - injection Hstep as <-.
    destruct (writeEnd_frame error ecs
                (with_port_writing (pred (port_writing s)) s))
      as (_ & _ & Hd & _ & _ & _ & Hp & _).
    rewrite Hd. split; [now apply Hp | reflexivity].
Qed.

(** The handler of a read that failed, run while the engine is marked
    open. *)
Lemma readEnd_failure (error : error_code) (n : nat)
    (ecs : error_code * error_code) (s : AsyncSerialImpl) :
  failed error = true -> isOpen s = true ->
  readEnd false error n ecs s = setErrorStatus true (doClose ecs s).
Proof.
  intros Hfailed Hopen. unfold readEnd. now rewrite Hfailed, Hopen.
Qed.

Lemma run_open_flag (evs : list event) :
  forall s s', run evs s = Some s' -> pimpl_open s' = pimpl_open s.
Proof.
  induction evs as [|e evs IH]; simpl; intros s s' Hrun.
  - now injection Hrun as <-.
  - destruct (step e s) as [s1|] eqn:Hstep; [|discriminate].
    rewrite (IH _ _ Hrun). now apply step_open_flag with e.
Qed.

Lemma run_error_stays (evs : list event) :
  forall s s',
  run evs s = Some s' -> pimpl_error s = true -> pimpl_error s' = true.
Proof.
  induction evs as [|e evs IH]; simpl; intros s s' Hrun Herr.
  - now injection Hrun as <-.
  - destruct (step e s) as [s1|] eqn:Hstep; [|discriminate].
    apply (IH _ _ Hrun). now apply step_error_stays with e s.
Qed.

Lemma run_closed_port (evs : list event) :
  forall s s',
  run evs s = Some s' -> port_is_open s = false ->
  port_is_open s' = false /\ delivered s' = delivered s.
Proof.
  induction evs as [|e evs IH]; simpl; intros s s' Hrun Hclosed.
  - injection Hrun as <-. auto.
  - destruct (step e s) as [s1|] eqn:Hstep; [|discriminate].
    destruct (step_closed_port _ _ _ Hstep Hclosed) as [Hp Hd].
    destruct (IH _ _ Hrun Hp) as [Hp' Hd'].
    split; [exact Hp' | congruence].
Qed.

End ReactorEvents.

(** ** One write in flight *)

Section ReactorInFlight.
Import Reactor ReactorSpec.

Lemma writeEnd_failure (error : error_code) (ecs : error_code * error_code)
    (s : AsyncSerialImpl) :
  failed error = true ->
  writeBuffer (writeEnd error ecs s) = writeBuffer s
  /\ port_writing (writeEnd error ecs s) = port_writing s
  /\ wire (writeEnd error ecs s) = wire s
  /\ pimpl_error (writeEnd error ecs s) = true
  /\ port_is_open (writeEnd error ecs s) = false.
Proof.
  intros Hfailed. unfold writeEnd. rewrite Hfailed. simpl.
  destruct (doClose_frame ecs (setErrorStatus true s))
    as (Hw & _ & Hb & Hpw & _ & _ & _ & _ & _ & _ & Hp).
  rewrite Hw, Hb, Hpw, Hp. repeat split.
  now apply doClose_error.
Qed.

(** At most one write is outstanding, whatever happens. *)
Lemma step_write_inv (e : event) (s s' : AsyncSerialImpl) :
  step e s = Some s' -> write_inv s -> write_inv s'.
Proof.
  unfold write_inv.
  destruct e as [ecs|error data ecs|error ecs| |data size|data|str|f|];
    intros Hstep [Hle Hbuf]; step_cases Hstep;
    try (injection Hstep as <-; simpl; split; assumption).
  - injection Hstep as <-. destruct h; simpl.
    + split; assumption.
    + destruct (writeBuffer s) as [buf|] eqn:Hb.
      * rewrite doWrite_busy by (simpl; congruence). simpl.
        rewrite Hb. split; [assumption | discriminate].
      * destruct (doWrite_idle (with_io_posted l s) Hb)
          as (_ & Hb' & _ & Hpw').
        rewrite Hb', Hpw'. simpl.
        assert (port_writing s = 0) as ->.
        { destruct (port_writing s) as [|[|n]]; [reflexivity| |lia].
          now destruct Hbuf. }
        split; [lia | discriminate].
    + destruct (doClose_frame ecs (with_io_posted l s))
        as (_ & _ & Hb' & Hpw' & _).
      rewrite Hb', Hpw'. simpl. split; assumption.
  - destruct (failed error); injection Hstep as <-;
      match goal with
      | |- context [readEnd false ?a ?b ?c ?d] =>
          destruct (readEnd_frame a b c d) as (_ & _ & Hb' & Hpw' & _)
      end; rewrite Hb', Hpw'; simpl; split; assumption.
  - injection Hstep as <-.
    assert (pred (port_writing s) = 0) as Hpred by lia.
    destruct (failed error) eqn:Hfailed.
    + destruct (writeEnd_failure error ecs
                  (with_port_writing (pred (port_writing s)) s) Hfailed)
        as (_ & Hpw' & _).
      rewrite Hpw'. simpl. rewrite Hpred. split; [lia | discriminate].
    + unfold writeEnd. rewrite Hfailed. simpl.
      destruct (writeQueue s); simpl; rewrite Hpred;
        (split; [lia | discriminate]).
Qed.

(** As long as no write fails, [writeBuffer] is null exactly while no
    write is outstanding. *)
Lemma step_write_sync (e : event) (s s' : AsyncSerialImpl) :
  step e s = Some s' -> is_write_failure e = false ->
  write_sync s -> write_sync s'.
Proof.
  unfold write_sync.
  destruct e as [ecs|error data ecs|error ecs| |data size|data|str|f|];
    intros Hstep Hok [Hle Hiff]; step_cases Hstep;
    try (injection Hstep as <-; simpl; split; assumption).
  - injection Hstep as <-. destruct h; simpl.
    + split; assumption.
    + destruct (writeBuffer s) as [buf|] eqn:Hb.
      * rewrite doWrite_busy by (simpl; congruence). simpl.
        rewrite Hb. split; assumption.
      * destruct (doWrite_idle (with_io_posted l s) Hb)
          as (_ & Hb' & _ & Hpw').
        rewrite Hb', Hpw'. simpl.
        rewrite (proj1 Hiff eq_refl).
        split; [lia | split; [discriminate | lia]].
    + destruct (doClose_frame ecs (with_io_posted l s))
        as (_ & _ & Hb' & Hpw' & _).
      rewrite Hb', Hpw'. simpl. split; assumption.
  - destruct (failed error); injection Hstep as <-;
      match goal with
      | |- context [readEnd false ?a ?b ?c ?d] =>
          destruct (readEnd_frame a b c d) as (_ & _ & Hb' & Hpw' & _)
      end; rewrite Hb', Hpw'; simpl; split; assumption.
  - injection Hstep as <-. simpl in Hok.
    assert (pred (port_writing s) = 0) as Hpred by lia.
    unfold writeEnd. rewrite Hok. simpl.
    destruct (writeQueue s); simpl; rewrite Hpred.
    + split; [lia | tauto].
    + split; [lia | split; [discriminate | lia]].
Qed.

Lemma run_write_inv (evs : list event) :
  forall s s', run evs s = Some s' -> write_inv s -> write_inv s'.
Proof.
  induction evs as [|e evs IH]; simpl; intros s s' Hrun Hinv.
  - now injection Hrun as <-.
  - destruct (step e s) as [s1|] eqn:Hstep; [|discriminate].
    apply (IH _ _ Hrun). now apply step_write_inv with e s.
Qed.

Lemma run_write_sync (evs : list event) :
  forall s s',
  run evs s = Some s' -> existsb is_write_failure evs = false ->
  write_sync s -> write_sync s'.
Proof.
  induction evs as [|e evs IH]; simpl; intros s s' Hrun Hok Hinv.
  - now injection Hrun as <-.
  - apply orb_false_iff in Hok as [Hok Hoks].
    destruct (step e s) as [s1|] eqn:Hstep; [|discriminate].
    apply (IH _ _ Hrun Hoks). now apply step_write_sync with e s.
Qed.

(** Once [writeBuffer] is set while no write is outstanding, it stays so
    and nothing more is handed to the transport. *)
Lemma step_mute (e : event) (s s' : AsyncSerialImpl) :
  step e s = Some s' ->
  writeBuffer s <> None -> port_writing s = 0 ->
  wire s' = wire s /\ writeBuffer s' = writeBuffer s /\ port_writing s' = 0.
Proof.
  destruct e as [ecs|error data ecs|error ecs| |data size|data|str|f|];
    intros Hstep Hbuf Hpw; step_cases Hstep;
    try (injection Hstep as <-; simpl; repeat split; assumption).
  - injection Hstep as <-. destruct h; simpl.
    + repeat split; assumption.
    + rewrite doWrite_busy by (simpl; assumption).
      simpl. repeat split; assumption.
    + destruct (doClose_frame ecs (with_io_posted l s))
        as (Hw' & _ & Hb' & Hpw' & _).
      rewrite Hw', Hb', Hpw'. simpl. repeat split; assumption.
  - destruct (failed error); injection Hstep as <-;
      match goal with
      | |- context [readEnd false ?a ?b ?c ?d] =>
          destruct (readEnd_frame a b c d) as (Hw' & _ & Hb' & Hpw' & _)
      end; rewrite Hw', Hb', Hpw'; simpl; repeat split; assumption.
  - rewrite Hpw in Hc. simpl in Hc. rewrite andb_false_r in Hc.
    discriminate.
Qed.

Lemma run_mute (evs : list event) :
  forall s s',
  run evs s = Some s' ->
  writeBuffer s <> None -> port_writing s = 0 ->
  wire s' = wire s /\ writeBuffer s' = writeBuffer s /\ port_writing s' = 0.
Proof.
  induction evs as [|e evs IH]; simpl; intros s s' Hrun Hbuf Hpw.
  - injection Hrun as <-. auto.
  - destruct (step e s) as [s1|] eqn:Hstep; [|discriminate].
    destruct (step_mute _ _ _ Hstep Hbuf Hpw) as (Hw1 & Hb1 & Hpw1).
    rewrite <- Hb1 in Hbuf.
    destruct (IH _ _ Hrun Hbuf Hpw1) as (Hw' & Hb' & Hpw').
    repeat split; congruence.
Qed.

(** C2.  The completion handler of a write that failed leaves
    [writeBuffer] as it is, not null, although no write is outstanding any
    more; from then on [doWrite] takes a write to be in progress, so that
    no later event hands anything to the transport: the bytes of later
    calls stay in the queue. *)
Theorem C2_failed_write_leaves_buffer_set
    (error : error_code) (ecs : error_code * error_code)
    (s : AsyncSerialImpl) :
  failed error = true ->
  writeBuffer s <> None ->
  port_writing s = 0 ->
  let s' := writeEnd error ecs s in
  writeBuffer s' = writeBuffer s
  /\ port_writing s' = 0
  /\ forall evs s'',
       run evs s' = Some s'' ->
       wire s'' = wire s'
       /\ writeBuffer s'' = writeBuffer s
       /\ port_writing s'' = 0
       /\ writeQueue s''
          = writeQueue s ++ List.concat (map written_by evs).
Proof.
  intros Hfailed Hbuf Hpw s'.
  destruct (writeEnd_failure error ecs s Hfailed) as (Hb' & Hpw' & Hw' & _).
  fold s' in Hb', Hpw', Hw'.
  split; [exact Hb'|]. split; [congruence|].
  intros evs s'' Hrun.
  assert (writeBuffer s' <> None) as Hbuf' by congruence.
  assert (port_writing s' = 0) as Hpw0 by congruence.
  destruct (run_mute _ _ _ Hrun Hbuf' Hpw0) as (Hw'' & Hb'' & Hpw'').
  repeat split; try congruence.
  pose proof (run_conserves _ _ _ Hrun) as Hcons.
  rewrite Hw'' in Hcons. apply app_inv_head in Hcons.
  rewrite Hcons. f_equal.
  pose proof (writeEnd_conserves error ecs s) as Hcons'.
  fold s' in Hcons'. rewrite Hw' in Hcons'.
  now apply app_inv_head in Hcons'.
Qed.

(** The write of [A] is in flight and fails; [B] is written afterwards and
    [doWrite] is dispatched: only [A] was ever handed to the transport and
    [B] is still queued. *)
Lemma C2_witness :
  let s :=
    with_port_writing 0
      (with_thread_running true (doWrite (writeString "A" (init 0 [])))) in
  match run [CallWriteString "B"; Dispatch no_errors; Dispatch no_errors]
          (writeEnd 5 no_errors s) with
  | Some s2 =>
      wire s2 = ["A"%char] /\ writeQueue s2 = ["B"%char]
      /\ writeBuffer s2 = Some ["A"%char] /\ port_writing s2 = 0
  | None => False
  end.
Proof.
  intros s.
  assert (failed 5 = true) as H1 by reflexivity.
  assert (writeBuffer s <> None) as H2 by (vm_compute; discriminate).
  assert (port_writing s = 0) as H3 by reflexivity.
  destruct (C2_failed_write_leaves_buffer_set 5 no_errors s H1 H2 H3)
    as (_ & _ & Hlater).
  destruct (run [CallWriteString "B"; Dispatch no_errors; Dispatch no_errors]
              (writeEnd 5 no_errors s)) as [s2|] eqn:Hrun;
    [|vm_compute in Hrun; discriminate].
  destruct (Hlater _ _ Hrun) as (Hw & Hb & Hpw & Hq).
  rewrite Hw, Hb, Hq. vm_compute. auto.
Defined.

End ReactorInFlight.

(** ** Opening and closing the reactor *)

Section ReactorLifecycle.
Import Reactor ReactorSpec.

Ltac break_if H :=
  match type of H with
  | context [if ?c then _ else _] =>
      let Hc := fresh "Hc" in destruct c eqn:Hc
  end.

(** What the part of [open] before the last two statements does. *)
Lemma open_setup_spec (baud_rate : N) (os : open_answers)
    (s s' : AsyncSerialImpl) (r : outcome) :
  open_setup baud_rate os s = (r, s') ->
  pimpl_error s' = true
  /\ pimpl_open s' = pimpl_open s
  /\ io_stopped s' = io_stopped s
  /\ writeBuffer s' = writeBuffer s
  /\ port_writing s' = port_writing s
  /\ match r with
     | Returned =>
         port_is_open s = false
         /\ device_opens os = true
         /\ baud_rate_accepted os = true /\ parity_accepted os = true
         /\ csize_accepted os = true /\ flow_accepted os = true
         /\ stop_accepted os = true /\ thread_starts os = true
         /\ port_is_open s' = true
         /\ In DoRead (io_posted s')
         /\ (io_stopped s = false -> thread_running s' = true)
     | Thrown _ => thread_running s' = thread_running s
     end.
Proof.
  unfold open_setup, setErrorStatus, thread_start, io_post. simpl.
  intros H.
  destruct (port_is_open s) eqn:Hport; simpl in H.
  { injection H as <- <-. simpl. repeat split. }
  destruct (device_opens os); simpl in H.
  2:{ injection H as <- <-. simpl. repeat split. }
  destruct (baud_rate_accepted os); simpl in H.
  2:{ injection H as <- <-. simpl. repeat split. }
  destruct (parity_accepted os); simpl in H.
  2:{ injection H as <- <-. simpl. repeat split. }
  destruct (csize_accepted os); simpl in H.
  2:{ injection H as <- <-. simpl. repeat split. }
  destruct (flow_accepted os); simpl in H.
  2:{ injection H as <- <-. simpl. repeat split. }
  destruct (stop_accepted os); simpl in H.
  2:{ injection H as <- <-. simpl. repeat split. }
  destruct (thread_starts os); simpl in H.
  2:{ injection H as <- <-. simpl. repeat split. }
  destruct (io_stopped s) eqn:Hstopped;
    injection H as <- <-; simpl; repeat split; auto;
    try (apply in_or_app; right; left; reflexivity);
    intros; discriminate.
Qed.

(** What [close()] does, in any state. *)
Lemma close_spec (before_post during_join : list event)
    (s s' : AsyncSerialImpl) (r : outcome) :
  close before_post during_join s = Some (r, s') ->
  (isOpen s = false -> r = Returned /\ s' = s)
  /\ (isOpen s = true ->
      isOpen s' = false
      /\ thread_running s' = false
      /\ io_stopped s' = false
      /\ (errorStatus s = true -> errorStatus s' = true)
      /\ (r = Thrown "Error while closing the device"
          <-> errorStatus s' = true)
      /\ (r = Returned <-> errorStatus s' = false)
      /\ exists s0 s1,
           run before_post (close_begin s) = Some s0
           /\ run during_join (close_post s0) = Some s1
           /\ thread_running s1 = false
           /\ s' = with_io_stopped false s1).
Proof.
  unfold close. intros H.
  destruct (isOpen s) eqn:Hopen; simpl in H.
  2:{ injection H as <- <-. split; [auto | discriminate]. }
  split; [discriminate|]. intros _.
  destruct (run before_post (close_begin s)) as [s0|] eqn:Hrun0;
    [|discriminate].
  destruct (run during_join (close_post s0)) as [s1|] eqn:Hrun;
    [|discriminate].
  destruct (thread_running s1) eqn:Hthread; [discriminate|].
  assert (pimpl_open s1 = false) as Hflag.
  { rewrite (run_open_flag _ _ _ Hrun). simpl.
    now rewrite (run_open_flag _ _ _ Hrun0). }
  assert (pimpl_error s = true -> pimpl_error s1 = true) as Hstay.
  { intros Herr. apply (run_error_stays _ _ _ Hrun). simpl.
    now apply (run_error_stays _ _ _ Hrun0). }
  unfold close_end, errorStatus in H. simpl in H.
  unfold isOpen, errorStatus.
  destruct (pimpl_error s1) eqn:Herr1; injection H as <- <-; simpl;
    rewrite Hflag, Herr1, Hthread;
    (repeat split; auto; try discriminate; try (intros; congruence));
    exists s0, s1; auto.
Qed.

(** While [close] waits: the port is closed when the thread leaves. *)
Lemma step_closing_inv (e : event) (s s' : AsyncSerialImpl) :
  step e s = Some s' -> closing_inv s -> closing_inv s'.
Proof.
  unfold closing_inv. intros Hstep [Hopen Hport].
  split; [now rewrite (step_open_flag _ _ _ Hstep)|].
  destruct Hport as [Hclosed | [Hthread Hin]].
  { left. now destruct (step_closed_port _ _ _ Hstep Hclosed). }
  destruct e as [ecs|error data ecs|error ecs| |data size|data|str|f|];
    simpl in Hstep.
  - rewrite Hthread in Hstep.
    destruct (io_posted s) as [|h hs] eqn:Hposted; [discriminate|].
    injection Hstep as <-.
    destruct h; simpl.
    + right. split; [assumption|]. destruct Hin as [Heq | Hin];
        [discriminate | assumption].
    + destruct (doWrite_frame (with_io_posted hs s))
        as (_ & _ & _ & _ & _ & Hp & Ht & _).
      right. rewrite Hp, Ht. simpl. split; [assumption|].
      destruct Hin as [Heq | Hin]; [discriminate | assumption].
    + left. apply (doClose_frame ecs (with_io_posted hs s)).
  - break_if Hstep; [|discriminate].
    destruct (failed error); injection Hstep as <-;
      match goal with
      | |- context [readEnd false ?a ?b ?c ?d] =>
          destruct (readEnd_frame a b c d)
            as (_ & _ & _ & _ & _ & Hp & Ht & _)
      end; right; rewrite Hp, Ht; simpl; auto.
  - break_if Hstep; [|discriminate].
    injection Hstep as <-.
    destruct (writeEnd_frame error ecs
                (with_port_writing (pred (port_writing s)) s))
      as (_ & _ & _ & Hp & Ht & _).
    right. rewrite Hp, Ht. simpl. auto.
  - break_if Hstep; [|discriminate].
    apply andb_true_iff in Hc as [_ Hwork].
    unfold out_of_work in Hwork.
    destruct (io_posted s); [contradiction | discriminate].
  - injection Hstep as <-. right. simpl. split; [assumption|].
    apply in_or_app. now left.
  - injection Hstep as <-. right. simpl. split; [assumption|].
    apply in_or_app. now left.
  - injection Hstep as <-. right. simpl. split; [assumption|].
    apply in_or_app. now left.
  - injection Hstep as <-. right. simpl. auto.
  - injection Hstep as <-. right. simpl. auto.
Qed.

Lemma run_closing_inv (evs : list event) :
  forall s s', run evs s = Some s' -> closing_inv s -> closing_inv s'.
Proof.
  induction evs as [|e evs IH]; simpl; intros s s' Hrun Hinv.
  - now injection Hrun as <-.
  - destruct (step e s) as [s1|] eqn:Hstep; [|discriminate].
    apply (IH _ _ Hrun). now apply step_closing_inv with e s.
Qed.

(** No event starts a thread or stops the io_service of an engine that is
    not marked open. *)
Lemma step_idle_inv (e : event) (s s' : AsyncSerialImpl) :
  step e s = Some s' -> idle_inv s -> idle_inv s'.
Proof.
  unfold idle_inv. intros Hstep Hidle.
  rewrite (step_open_flag _ _ _ Hstep). intros Hclosed.
  destruct (Hidle Hclosed) as [Hthread Hstopped].
  destruct e as [ecs|error data ecs|error ecs| |data size|data|str|f|];
    simpl in Hstep; rewrite ?Hthread in Hstep; simpl in Hstep;
    try discriminate; injection Hstep as <-; simpl; auto.
Qed.

(** A handler that sets the error flag has closed the port. *)
Lemma step_error_inv (e : event) (s s' : AsyncSerialImpl) :
  step e s = Some s' -> error_inv s -> error_inv s'.
Proof.
  unfold error_inv. intros Hstep Hinv.
  rewrite (step_open_flag _ _ _ Hstep). intros Hopen Herr'.
  destruct (pimpl_error s) eqn:Herr.
  { now destruct (step_closed_port _ _ _ Hstep (Hinv Hopen eq_refl)). }
  destruct e as [ecs|error data ecs|error ecs| |data size|data|str|f|];
    simpl in Hstep.
  - destruct (thread_running s); [|discriminate].
    destruct (io_posted s) as [|h hs]; [discriminate|].
    injection Hstep as <-. destruct h; simpl in *.
    + congruence.
    + destruct (doWrite_frame (with_io_posted hs s)) as (_ & He & _).
      rewrite He in Herr'. simpl in Herr'. congruence.
    + apply (doClose_frame ecs (with_io_posted hs s)).
  - break_if Hstep; [|discriminate].
    destruct (failed error) eqn:Hfailed; injection Hstep as <-.
    + rewrite readEnd_failure by auto. unfold setErrorStatus. simpl.
      apply (doClose_frame ecs
               (with_port_reading (pred (port_reading s)) s)).
    + unfold readEnd in Herr'. rewrite Hfailed in Herr'. simpl in Herr'.
      destruct (callback s); simpl in Herr'; congruence.
  - break_if Hstep; [|discriminate].
    injection Hstep as <-.
    destruct (failed error) eqn:Hfailed.
    + now apply writeEnd_failure.
    + unfold writeEnd in Herr'. rewrite Hfailed in Herr'. simpl in Herr'.
      destruct (writeQueue s); simpl in Herr'; congruence.
  - break_if Hstep; [|discriminate].
    injection Hstep as <-. simpl in Herr'. congruence.
  - injection Hstep as <-. simpl in Herr'. congruence.
  - injection Hstep as <-. simpl in Herr'. congruence.
  - injection Hstep as <-. simpl in Herr'. congruence.
  - injection Hstep as <-. simpl in Herr'. congruence.
  - injection Hstep as <-. simpl in Herr'. congruence.
Qed.

(** [close()] leaves no thread behind, whatever the state it is called
    in. *)
Lemma close_idle_inv (before_post during_join : list event)
    (s s' : AsyncSerialImpl) (r : outcome) :
  close before_post during_join s = Some (r, s') -> idle_inv s ->
  idle_inv s'.
Proof.
  intros Hclose Hinv.
  destruct (close_spec _ _ _ _ _ Hclose) as [Hnoop Hdone].
  destruct (isOpen s) eqn:Hopen.
  2:{ now destruct (Hnoop eq_refl) as [_ ->]. }
  destruct (Hdone eq_refl) as (_ & Hthread' & Hstopped' & _).
  intros _. split; assumption.
Qed.

(** [close()] releases the port when the thread is still inside [run], or
    the port closed already, at the time [doClose] is posted. *)
Lemma close_releases_port (before_post during_join : list event)
    (s s0 s' : AsyncSerialImpl) (r : outcome) :
  isOpen s = true ->
  close before_post during_join s = Some (r, s') ->
  run before_post (close_begin s) = Some s0 ->
  thread_running s0 = true \/ port_is_open s0 = false ->
  port_is_open s' = false.
Proof.
  intros Hopen Hclose Hrun0 Hlive.
  destruct (close_spec _ _ _ _ _ Hclose) as [_ Hdone].
  destruct (Hdone Hopen)
    as (_ & _ & _ & _ & _ & _ & s0' & s1 & Hrun0' & Hrun & Hthread1 & ->).
  rewrite Hrun0 in Hrun0'. injection Hrun0' as <-.
  assert (closing_inv (close_post s0)) as Hclosing.
  { unfold closing_inv, close_post, io_post. simpl.
    split; [now rewrite (run_open_flag _ _ _ Hrun0)|].
    destruct Hlive as [Hthread | Hclosed]; [right | now left].
    split; [assumption|]. apply in_or_app. right. now left. }
  apply (run_closing_inv _ _ _ Hrun) in Hclosing.
  destruct Hclosing as [_ [Hclosed | [Ht _]]]; [exact Hclosed | congruence].
Qed.

(** What [open] leaves: the two flags, and no thread when it throws. *)
Lemma open_spec (baud_rate : N) (os : open_answers)
    (before_post during_join after_start : list event)
    (s s' : AsyncSerialImpl) (r : outcome) :
  idle_inv s ->
  open baud_rate os before_post during_join after_start s = Some (r, s') ->
  match r with
  | Returned => pimpl_open s' = true /\ pimpl_error s' = false
  | Thrown _ =>
      pimpl_open s' = false /\ pimpl_error s' = true
      /\ thread_running s' = false /\ io_stopped s' = false
  end.
Proof.
  unfold open. intros Hinv Hopen.
  assert (forall s1, idle_inv s1 -> pimpl_open s1 = false ->
            match open_setup baud_rate os s1 with
            | (Thrown what, s2) => Some (Thrown what, s2)
            | (Returned, s2) =>
                match run after_start s2 with
                | Some s3 =>
                    Some (Returned, with_open true (setErrorStatus false s3))
                | None => None
                end
            end = Some (r, s') ->
            match r with
            | Returned => pimpl_open s' = true /\ pimpl_error s' = false
            | Thrown _ =>
                pimpl_open s' = false /\ pimpl_error s' = true
                /\ thread_running s' = false /\ io_stopped s' = false
            end) as Hbody.
  { clear. intros s1 Hidle Hclosed Hbody.
    destruct (Hidle Hclosed) as [Hthread Hstopped].
    destruct (open_setup baud_rate os s1) as [r2 s2] eqn:Hsetup.
    destruct (open_setup_spec _ _ _ _ _ Hsetup)
      as (Herr & Hflag & Hst & _ & _ & Hr).
    destruct r2.
    - destruct (run after_start s2) as [s3|]; [|discriminate].
      injection Hbody as <- <-. simpl. auto.
    - injection Hbody as <- <-. rewrite Hflag, Hr, Hst. auto. }
  destruct (isOpen s) eqn:Hflag.
  - destruct (close before_post during_join s) as [[r1 s1]|] eqn:Hclose;
      [|discriminate].
    pose proof (close_idle_inv _ _ _ _ _ Hclose Hinv) as Hinv1.
    destruct (close_spec _ _ _ _ _ Hclose) as [_ Hdone].
    destruct (Hdone Hflag) as (Hclosed & Ht & Hst & _ & _ & [_ Hret] & _).
    destruct r1.
    + now apply (Hbody s1).
    + injection Hopen as <- <-. unfold errorStatus in Hret.
      unfold isOpen in Hclosed.
      destruct (pimpl_error s1); [auto | now specialize (Hret eq_refl)].
  - now apply (Hbody s).
Qed.

(** Between any two calls or events, an engine that is not marked open has
    no thread inside [run]. *)
Lemma reachable_idle_inv (s : AsyncSerialImpl) :
  reachable s -> idle_inv s.
Proof.
  induction 1 as [wbs rb | e s s' _ IH Hstep
                 | baud_rate os bp dj st s r s' _ IH Hopen
                 | bp dj s r s' _ IH Hclose].
  - unfold idle_inv. simpl. auto.
  - now apply step_idle_inv with e s.
  - pose proof (open_spec _ _ _ _ _ _ _ _ IH Hopen) as Hspec.
    unfold idle_inv. destruct r.
    + destruct Hspec as [-> _]. discriminate.
    + destruct Hspec as (_ & _ & Ht & Hst). auto.
  - now apply (close_idle_inv _ _ _ _ _ Hclose).
Qed.

(** Between any two calls or events, an engine that is marked open and has
    its error flag set has its port closed. *)
Lemma reachable_error_inv (s : AsyncSerialImpl) :
  reachable s -> error_inv s.
Proof.
  intros Hreach. pose proof (reachable_idle_inv s Hreach) as Hidle.
  revert Hidle.
  induction Hreach as [wbs rb | e s s' Hreach IH Hstep
                      | baud_rate os bp dj st s r s' Hreach IH Hopen
                      | bp dj s r s' Hreach IH Hclose]; intros _.
  - unfold error_inv. simpl. discriminate.
  - apply step_error_inv with e s; [assumption|].
    apply IH. now apply reachable_idle_inv.
  - pose proof (open_spec _ _ _ _ _ _ _ _ (reachable_idle_inv s Hreach) Hopen)
      as Hspec.
    unfold error_inv. destruct r.
    + destruct Hspec as [_ ->]. discriminate.
    + destruct Hspec as (-> & _). discriminate.
  - destruct (close_spec _ _ _ _ _ Hclose) as [Hnoop Hdone].
    destruct (isOpen s) eqn:Hopen.
    + destruct (Hdone eq_refl) as (Hclosed & _). unfold isOpen in Hclosed.
      unfold error_inv. rewrite Hclosed. discriminate.
    + destruct (Hnoop eq_refl) as [_ ->]. apply IH.
      now apply reachable_idle_inv.
Qed.

(** At most one write is outstanding between any two calls or events. *)
Lemma reachable_write_inv (s : AsyncSerialImpl) :
  reachable s -> write_inv s.
Proof.
  assert (forall bp dj s r s', close bp dj s = Some (r, s') ->
            write_inv s -> write_inv s') as Hclose_inv.
  { intros bp dj s0 r s' Hclose Hinv.
    destruct (close_spec _ _ _ _ _ Hclose) as [Hnoop Hdone].
    destruct (isOpen s0) eqn:Hopen.
    - destruct (Hdone eq_refl)
        as (_ & _ & _ & _ & _ & _ & s1 & s2 & Hrun0 & Hrun & _ & ->).
      apply (run_write_inv _ _ _ Hrun).
      apply (run_write_inv _ _ _ Hrun0). exact Hinv.
    - now destruct (Hnoop eq_refl) as [_ ->]. }
  induction 1 as [wbs rb | e s s' _ IH Hstep
                 | baud_rate os bp dj st s r s' _ IH Hopen
                 | bp dj s r s' _ IH Hclose].
  - unfold write_inv. simpl. split; [lia | discriminate].
  - now apply step_write_inv with e s.
  - unfold open in Hopen.
    assert (forall s1, write_inv s1 ->
              match open_setup baud_rate os s1 with
              | (Thrown what, s2) => Some (Thrown what, s2)
              | (Returned, s2) =>
                  match run st s2 with
                  | Some s3 =>
                      Some (Returned,
                            with_open true (setErrorStatus false s3))
                  | None => None
                  end
              end = Some (r, s') -> write_inv s') as Hbody.
    { clear. intros s1 Hinv Hbody.
      destruct (open_setup baud_rate os s1) as [r2 s2] eqn:Hsetup.
      destruct (open_setup_spec _ _ _ _ _ Hsetup) as (_ & _ & _ & Hb & Hpw & _).
      assert (write_inv s2) as Hinv2.
      { unfold write_inv in *. now rewrite Hb, Hpw. }
      destruct r2.
      - destruct (run st s2) as [s3|] eqn:Hrun; [|discriminate].
        injection Hbody as <- <-.
        apply (run_write_inv _ _ _ Hrun) in Hinv2. exact Hinv2.
      - now injection Hbody as <- <-. }
    destruct (isOpen s).
    + destruct (close bp dj s) as [[r1 s1]|] eqn:Hclose; [|discriminate].
      pose proof (Hclose_inv _ _ _ _ _ Hclose IH) as Hinv1.
      destruct r1; [now apply (Hbody s1) | now injection Hopen as <- <-].
    + now apply (Hbody s).
  - now apply (Hclose_inv _ _ _ _ _ Hclose).
Qed.

Lemma run_app (evs1 evs2 : list event) :
  forall s,
  run (evs1 ++ evs2) s
  = match run evs1 s with Some s1 => run evs2 s1 | None => None end.
Proof.
  induction evs1 as [|e evs1 IH]; simpl; intros s; [reflexivity|].
  destruct (step e s); [apply IH | reflexivity].
Qed.

Lemma run_dispatch_all (ecs : error_code * error_code) (n : nat) :
  forall s,
  thread_running s = true -> List.length (io_posted s) = n ->
  exists s1,
    run (repeat (Dispatch ecs) n) s = Some s1
    /\ io_posted s1 = [] /\ thread_running s1 = true
    /\ pimpl_open s1 = pimpl_open s.
Proof.
  induction n as [|n IH]; simpl; intros s Hthread Hlen.
  - exists s. destruct (io_posted s); [auto | discriminate].
  - rewrite Hthread.
    destruct (io_posted s) as [|h hs] eqn:Hposted; [discriminate|].
    injection Hlen as Hlen.
    assert (io_posted (run_handler h ecs (with_io_posted hs s)) = hs
            /\ thread_running (run_handler h ecs (with_io_posted hs s)) = true
            /\ pimpl_open (run_handler h ecs (with_io_posted hs s))
               = pimpl_open s) as (Hp & Ht & Ho).
    { destruct h; simpl.
      - auto.
      - destruct (doWrite_frame (with_io_posted hs s))
          as (Ho & _ & _ & _ & _ & Hp & Ht & _).
        rewrite Hp, Ht, Ho. auto.
      - destruct (doClose_frame ecs (with_io_posted hs s))
          as (_ & _ & _ & _ & _ & _ & Ho & Hp & Ht & _).
        rewrite Hp, Ht, Ho. auto. }
    destruct (IH _ Ht) as (s1 & Hrun & Hp1 & Ht1 & Ho1);
      [now rewrite Hp|].
    exists s1. rewrite Ho1, Ho. auto.
Qed.

Lemma run_abort_reads (ecs : error_code * error_code) (n : nat) :
  forall s,
  thread_running s = true -> pimpl_open s = false -> port_reading s = n ->
  exists s2,
    run (repeat (ReadComplete 125 [] ecs) n) s = Some s2
    /\ port_reading s2 = 0 /\ port_writing s2 = port_writing s
    /\ io_posted s2 = io_posted s /\ thread_running s2 = true.
Proof.
  induction n as [|n IH]; simpl; intros s Hthread Hclosed Hreading.
  - exists s. auto.
  - rewrite Hthread, Hreading. simpl.
    unfold readEnd, isOpen. simpl. rewrite Hclosed.
    destruct (IH (with_port_reading n s)) as (s2 & Hrun & H2); auto.
    exists s2. auto.
Qed.

Lemma run_abort_writes (ecs : error_code * error_code) (n : nat) :
  forall s,
  thread_running s = true -> port_writing s = n ->
  exists s3,
    run (repeat (WriteComplete 125 ecs) n) s = Some s3
    /\ port_writing s3 = 0 /\ port_reading s3 = port_reading s
    /\ io_posted s3 = io_posted s /\ thread_running s3 = true.
Proof.
  induction n as [|n IH]; simpl; intros s Hthread Hwriting.
  - exists s. auto.
  - rewrite Hthread, Hwriting. simpl.
    destruct (writeEnd_failure 125 ecs (with_port_writing n s) eq_refl)
      as (_ & Hpw & _).
    destruct (writeEnd_frame 125 ecs (with_port_writing n s))
      as (_ & Hr & _ & Hp & Ht & _).
    destruct (IH (writeEnd 125 ecs (with_port_writing n s)))
      as (s3 & Hrun & Hpw3 & Hr3 & Hp3 & Ht3).
    { now rewrite Ht. }
    { now rewrite Hpw. }
    exists s3. rewrite Hpw3, Hr3, Hp3, Ht3, Hr, Hp. auto.
Qed.

(** The join of [close] ends under the schedule [join_schedule]. *)
Lemma join_schedule_ends (s0 : AsyncSerialImpl) :
  pimpl_open s0 = false ->
  exists s', run (join_schedule s0) s0 = Some s' /\ thread_running s' = false.
Proof.
  intros Hclosed. unfold join_schedule.
  destruct (thread_running s0) eqn:Hthread; [|now exists s0].
  destruct (run_dispatch_all no_errors _ s0 Hthread eq_refl)
    as (s1 & Hrun1 & Hp1 & Ht1 & Ho1).
  rewrite Hrun1, run_app, Hrun1.
  destruct (run_abort_reads no_errors (port_reading s1) s1 Ht1)
    as (s2 & Hrun2 & Hr2 & Hw2 & Hp2 & Ht2); [congruence | reflexivity |].
  rewrite run_app, Hrun2, <- Hw2.
  destruct (run_abort_writes no_errors _ s2 Ht2 eq_refl)
    as (s3 & Hrun3 & Hw3 & Hr3 & Hp3 & Ht3).
  rewrite run_app, Hrun3. simpl.
  unfold out_of_work. rewrite Ht3, Hp3, Hp2, Hp1, Hr3, Hr2, Hw3. simpl.
  eexists. split; reflexivity.
Qed.

(** [close()] returns, whatever the state it is called in. *)
Lemma close_returns (s : AsyncSerialImpl) :
  exists evs r s', close [] evs s = Some (r, s').
Proof.
  unfold close. destruct (isOpen s) eqn:Hopen; simpl.
  2:{ exists [], Returned, s. reflexivity. }
  exists (join_schedule (close_post (close_begin s))).
  destruct (join_schedule_ends (close_post (close_begin s)) eq_refl)
    as (s1 & Hrun & Hthread).
  rewrite Hrun, Hthread.
  destruct (close_end s1) as [r s']. now exists r, s'.
Qed.

End ReactorLifecycle.

(** ** The blocking worker: events, read loop and lifecycle *)

Section BlockingWorkerFacts.
Import BlockingWorker.

(** One turn of the read loop, case by case. *)
Lemma doRead_iteration_spec (received : Z) (s : AsyncSerialImpl) :
  let (goes_on, s') := doRead_iteration received s in
  ((received < 0)%Z -> isOpen s = false -> goes_on = false /\ s' = s)
  /\ ((received < 0)%Z -> isOpen s = true ->
      goes_on = true /\ s' = setErrorStatus true s)
  /\ ((0 <= received)%Z ->
      goes_on = true
      /\ s' = match callback s with
              | Some f =>
                  with_delivered
                    (delivered s
                     ++ [(f, firstn (Z.to_nat received) (readBuffer s))]) s
              | None => s
              end).
Proof.
  unfold doRead_iteration, isOpen.
  destruct (received <? 0)%Z eqn:Hneg.
  - apply Z.ltb_lt in Hneg.
    destruct (pimpl_open s) eqn:Hopen; simpl;
      (repeat split; intros; try discriminate; try lia; auto).
  - apply Z.ltb_ge in Hneg.
    destruct (callback s); (repeat split; intros; try lia; auto).
Qed.

Lemma doRead_iteration_frame (received : Z) (s : AsyncSerialImpl) :
  pimpl_open (snd (doRead_iteration received s)) = pimpl_open s
  /\ fd_is_open (snd (doRead_iteration received s)) = fd_is_open s
  /\ thread_running (snd (doRead_iteration received s)) = thread_running s
  /\ wire (snd (doRead_iteration received s)) = wire s
  /\ (pimpl_error s = true ->
      pimpl_error (snd (doRead_iteration received s)) = true).
Proof.
  unfold doRead_iteration, isOpen.
  destruct (received <? 0)%Z.
  - destruct (pimpl_open s) eqn:Hopen; simpl; rewrite ?Hopen;
      repeat split; auto.
  - destruct (callback s); simpl; repeat split; auto.
Qed.

Lemma worker_write_frame (s : AsyncSerialImpl) (r : Z) (bytes : list char)
    (size : Z) :
  let s' :=
    if negb (to_size_t r =? size)%Z
    then setErrorStatus true (sys_write r bytes s)
    else sys_write r bytes s in
  pimpl_open s' = pimpl_open s
  /\ fd_is_open s' = fd_is_open s
  /\ thread_running s' = thread_running s
  /\ delivered s' = delivered s
  /\ (pimpl_error s = true -> pimpl_error s' = true).
Proof.
  simpl. destruct (negb (to_size_t r =? size)%Z); simpl;
    repeat split; auto.
Qed.

(** No event changes the open flag, reopens the descriptor or clears the
    error flag; only the read loop stops the thread. *)
Lemma worker_step_frame (e : event) (s s' : AsyncSerialImpl) :
  step e s = Some s' ->
  pimpl_open s' = pimpl_open s
  /\ fd_is_open s' = fd_is_open s
  /\ (pimpl_error s = true -> pimpl_error s' = true)
  /\ (thread_running s = false -> thread_running s' = false).
Proof.
  destruct e as [received data|r data size|r data|r str|f|]; simpl;
    intros Hstep.
  - destruct (thread_running s) eqn:Hthread; [|discriminate].
    simpl in Hstep.
    match type of Hstep with
    | (if ?c then _ else _) = _ => destruct c; [|discriminate]
    end.
    match type of Hstep with
    | context [doRead_iteration received ?s0] =>
        pose proof (doRead_iteration_frame received s0) as Hframe;
        destruct (doRead_iteration received s0) as [goes_on s1]
    end.
    simpl in Hframe. destruct Hframe as (Ho & Hf & _ & _ & He).
    injection Hstep as <-.
    destruct (received <? 0)%Z, goes_on; simpl in *;
      rewrite Ho, Hf; repeat split; auto; discriminate.
  - injection Hstep as <-.
    destruct (worker_write_frame s r (bytes_of_range data size)
                (Z.of_nat size)) as (Ho & Hf & Ht & _ & He).
    unfold write. cbv zeta. rewrite Ho, Hf, Ht. auto.
  - injection Hstep as <-.
    destruct (worker_write_frame s r data (Z.of_nat (List.length data)))
      as (Ho & Hf & Ht & _ & He).
    unfold write_vector. cbv zeta. rewrite Ho, Hf, Ht. auto.
  - injection Hstep as <-.
    destruct (worker_write_frame s r (bytes_of_string str)
                (Z.of_nat (String.length str)))
      as (Ho & Hf & Ht & _ & He).
    unfold writeString. cbv zeta. rewrite Ho, Hf, Ht. auto.
  - injection Hstep as <-. simpl. auto.
  - injection Hstep as <-. simpl. auto.
Qed.

Lemma worker_run_frame (evs : list event) :
  forall s s',
  run evs s = Some s' ->
  pimpl_open s' = pimpl_open s
  /\ fd_is_open s' = fd_is_open s
  /\ (pimpl_error s = true -> pimpl_error s' = true)
  /\ (thread_running s = false -> thread_running s' = false).
Proof.
  induction evs as [|e evs IH]; simpl; intros s s' Hrun.
  - injection Hrun as <-. auto.
  - destruct (step e s) as [s1|] eqn:Hstep; [|discriminate].
    destruct (worker_step_frame _ _ _ Hstep) as (Ho & Hf & He & Ht).
    destruct (IH _ _ Hrun) as (Ho' & Hf' & He' & Ht').
    rewrite Ho', Hf', Ho, Hf. repeat split; auto.
Qed.

(** What [close()] does, in any state. *)
Lemma worker_close_spec (evs : list event) (s s' : AsyncSerialImpl) (r : outcome) :
  close evs s = Some (r, s') ->
  (isOpen s = false -> r = Returned /\ s' = s)
  /\ (isOpen s = true ->
      isOpen s' = false
      /\ thread_running s' = false
      /\ fd_is_open s' = false
      /\ (errorStatus s = true -> errorStatus s' = true)
      /\ (r = Thrown "Error while closing the device"
          <-> errorStatus s' = true)
      /\ (r = Returned <-> errorStatus s' = false)).
Proof.
  unfold close. intros H.
  destruct (isOpen s) eqn:Hopen; simpl in H.
  2:{ injection H as <- <-. split; [auto | discriminate]. }
  split; [discriminate|]. intros _.
  destruct (run evs (close_begin s)) as [s1|] eqn:Hrun; [|discriminate].
  destruct (thread_running s1) eqn:Hthread; [discriminate|].
  destruct (worker_run_frame _ _ _ Hrun) as (Ho & Hf & He & _).
  simpl in Ho, Hf, He.
  unfold close_end, errorStatus in H. unfold isOpen, errorStatus.
  destruct (pimpl_error s1) eqn:Herr1; injection H as <- <-;
    rewrite Ho, Hf, Herr1, Hthread;
    repeat split; auto; try discriminate; intros; congruence.
Qed.

(** The join of [close] ends: the read the thread is blocked in fails on
    the closed descriptor and the loop returns. *)
Lemma worker_close_returns (s : AsyncSerialImpl) :
  exists evs r s', close evs s = Some (r, s').
Proof.
  unfold close. destruct (isOpen s) eqn:Hopen; simpl.
  2:{ exists [], Returned, s. reflexivity. }
  destruct (thread_running s) eqn:Hthread.
  - exists [ReadReturns (-1) []]. simpl. rewrite Hthread. simpl.
    destruct (close_end (with_thread_running false (close_begin s)))
      as [r s']. now exists r, s'.
  - exists []. simpl. rewrite Hthread.
    destruct (close_end (close_begin s)) as [r s']. now exists r, s'.
Qed.

(** What [open] does on an engine that is not open. *)
Lemma worker_open_spec (os : open_answers) (evs : list event)
    (s : AsyncSerialImpl) :
  isOpen s = false ->
  let s1 := with_open true
              (setErrorStatus false
                 (open_configure os (setErrorStatus true s))) in
  open os evs s
  = if thread_starts os
    then Some (Returned, with_thread_running true s1)
    else Some (Thrown "boost::thread_resource_error", s1).
Proof.
  intros Hclosed. unfold open. rewrite Hclosed.
  destruct (thread_starts os); reflexivity.
Qed.

End BlockingWorkerFacts.

(** ** Runtime I/O errors in both implementations *)

Section RuntimeError.
Import Reactor ReactorSpec.

(** C3, as stated, fails.  In the reactor model, after the handler of a
    failed read has run on an open engine, [isOpen()] is still true.  In
    the blocking-worker model, after a read has failed on an open engine,
    the next read that succeeds is delivered to the callback. *)
Lemma C3_isOpen_stays_true_after_read_failure :
  (isOpen open_and_reading = true
   /\ failed 5 = true
   /\ ~ (isOpen (readEnd false 5 0 no_errors open_and_reading) = false))
  /\ (exists b,
        BlockingWorker.run
          [BlockingWorker.ReadReturns (-1) [];
           BlockingWorker.ReadReturns 1 ["a"%char]]
          WorkerSpec.open_and_looping = Some b
        /\ BlockingWorker.errorStatus b = true
        /\ BlockingWorker.isOpen b = true
        /\ BlockingWorker.delivered b = [(7, ["a"%char])]).
Proof.
  split.
  - split; [reflexivity|]. split; [reflexivity|].
    vm_compute. discriminate.
  - eexists. split; [vm_compute; reflexivity|]. repeat split.
Qed.

(** C3, amended.  After a read or a write failure while the engine is
    marked open, [errorStatus()] is true and [isOpen()] is still true:
    only [close()] clears the open flag.  In the reactor model the port is
    closed and from then on, whatever the background thread and the
    callers do short of a new [open], the read callback is not invoked,
    the error flag stays set and the open flag stays as it is.  In the
    blocking-worker model the read loop goes on, and a later read that
    succeeds is delivered to the registered callback. *)
Theorem C3_runtime_error_sets_flag_and_leaves_engine_marked_open :
  (forall error n ecs s s',
     failed error = true ->
     isOpen s = true ->
     s' = readEnd false error n ecs s \/ s' = writeEnd error ecs s ->
     errorStatus s' = true
     /\ isOpen s' = true
     /\ port_is_open s' = false
     /\ delivered s' = delivered s
     /\ forall evs s'',
          run evs s' = Some s'' ->
          delivered s'' = delivered s
          /\ errorStatus s'' = true
          /\ isOpen s'' = true
          /\ port_is_open s'' = false)
  /\ (forall received b,
        (received < 0)%Z ->
        BlockingWorker.isOpen b = true ->
        let b' := snd (BlockingWorker.doRead_iteration received b) in
        fst (BlockingWorker.doRead_iteration received b) = true
        /\ BlockingWorker.errorStatus b' = true
        /\ BlockingWorker.isOpen b' = true
        /\ forall next f,
             (0 <= next)%Z ->
             BlockingWorker.callback b = Some f ->
             BlockingWorker.delivered
               (snd (BlockingWorker.doRead_iteration next b'))
             = BlockingWorker.delivered b
               ++ [(f, firstn (Z.to_nat next) (BlockingWorker.readBuffer b))])
  /\ (forall r data size b,
        BlockingWorker.isOpen b = true ->
        BlockingWorker.to_size_t r <> Z.of_nat size ->
        BlockingWorker.errorStatus (BlockingWorker.write r data size b) = true
        /\ BlockingWorker.isOpen (BlockingWorker.write r data size b) = true).
Proof.
  split; [|split].
  - intros error n ecs s s' Hfailed Hopen Hs'.
    assert (errorStatus s' = true /\ isOpen s' = true
            /\ port_is_open s' = false /\ delivered s' = delivered s)
      as (Herr & Hopen' & Hclosed & Hdel).
    { destruct Hs' as [-> | ->].
      - rewrite (readEnd_failure error n ecs s Hfailed Hopen).
        unfold errorStatus, isOpen, setErrorStatus. simpl.
        destruct (doClose_frame ecs s)
          as (_ & _ & _ & _ & _ & Hd & Ho & _ & _ & _ & Hp).
        rewrite Hd, Ho, Hp. auto.
      - destruct (writeEnd_failure error ecs s Hfailed)
          as (_ & _ & _ & He & Hp).
        destruct (writeEnd_frame error ecs s) as (Ho & _ & Hd & _).
        unfold errorStatus, isOpen. rewrite He, Hp, Ho, Hd. auto. }
    split; [exact Herr|]. split; [exact Hopen'|]. split; [exact Hclosed|].
    split; [exact Hdel|]. intros evs s'' Hrun.
    destruct (run_closed_port _ _ _ Hrun Hclosed) as [Hp Hd].
    split; [congruence|]. split; [|split; [|exact Hp]].
    + unfold errorStatus. now apply (run_error_stays _ _ _ Hrun).
    + unfold isOpen. now rewrite (run_open_flag _ _ _ Hrun).
  - intros received b Hneg Hopen b'. subst b'.
    pose proof (doRead_iteration_spec received b) as Hspec.
    destruct (BlockingWorker.doRead_iteration received b) as [goes_on b'].
    destruct Hspec as (_ & Herr & _).
    destruct (Herr Hneg Hopen) as [-> ->]. simpl.
    split; [reflexivity|]. split; [reflexivity|]. split; [exact Hopen|].
    intros next f Hnext Hcallback.
    pose proof (doRead_iteration_spec next
                  (BlockingWorker.setErrorStatus true b)) as Hspec.
    destruct (BlockingWorker.doRead_iteration next
                (BlockingWorker.setErrorStatus true b)) as [goes_on b''].
    destruct Hspec as (_ & _ & Hdeliver).
    destruct (Hdeliver Hnext) as [_ ->]. simpl. now rewrite Hcallback.
  - intros r data size b Hopen Hshort.
    unfold BlockingWorker.write. cbv zeta.
    apply Z.eqb_neq in Hshort. rewrite Hshort. simpl.
    split; [reflexivity | exact Hopen].
Qed.

(** An open reactor engine with a callback: a read fails; a write then
    fails too, [doWrite] is dispatched, a caller writes and changes the
    callback: the log of callback invocations does not grow.  An open
    blocking-worker engine: a read fails, the next one brings a byte. *)
Lemma C3_witness :
  (let s' := readEnd false 5 0 no_errors open_and_reading in
   errorStatus s' = true /\ isOpen s' = true /\ port_is_open s' = false
   /\ match run [CallSetReadCallback 2; CallWriteString "x";
                 Dispatch no_errors; WriteComplete 125 no_errors]
              s' with
      | Some s'' => delivered s'' = [] /\ errorStatus s'' = true
      | None => False
      end)
  /\ (let b' :=
        snd (BlockingWorker.doRead_iteration (-1)
               WorkerSpec.open_and_looping) in
      BlockingWorker.errorStatus b' = true
      /\ BlockingWorker.isOpen b' = true).
Proof.
  destruct C3_runtime_error_sets_flag_and_leaves_engine_marked_open
    as (Hreactor & Hworker & _).
  split.
  - intros s'.
    destruct (Hreactor 5%Z 0 no_errors open_and_reading s' eq_refl eq_refl
                (or_introl eq_refl))
      as (Herr & Hopen & Hclosed & _ & Hlater).
    split; [exact Herr|]. split; [exact Hopen|]. split; [exact Hclosed|].
    destruct (run [CallSetReadCallback 2; CallWriteString "x";
                   Dispatch no_errors; WriteComplete 125 no_errors] s')
      as [s''|] eqn:Hrun; [|vm_compute in Hrun; discriminate].
    destruct (Hlater _ _ Hrun) as (Hd & He & _).
    split; [exact Hd | exact He].
  - intros b'.
    destruct (Hworker (-1)%Z WorkerSpec.open_and_looping
                ltac:(reflexivity) eq_refl) as (_ & Herr & Hopen & _).
    split; [exact Herr | exact Hopen].
Defined.

End RuntimeError.

(** ** Opening the device *)

Section Opening.

(** The reactor's [open] ends with the two flags in step: it returns with
    the error flag cleared and the open flag set, or it throws with the
    error flag set and the open flag cleared; and it returns only if the
    device was opened, every option accepted and the thread created. *)
Lemma reactor_open_flags (baud_rate : N) (os : Reactor.open_answers)
    (before_post during_join after_start : list Reactor.event)
    (s s' : Reactor.AsyncSerialImpl) (r : outcome) :
  Reactor.open baud_rate os before_post during_join after_start s
  = Some (r, s') ->
  match r with
  | Returned =>
      Reactor.errorStatus s' = false /\ Reactor.isOpen s' = true
      /\ Reactor.device_opens os = true
      /\ Reactor.baud_rate_accepted os = true
      /\ Reactor.parity_accepted os = true
      /\ Reactor.csize_accepted os = true
      /\ Reactor.flow_accepted os = true
      /\ Reactor.stop_accepted os = true
      /\ Reactor.thread_starts os = true
  | Thrown _ => Reactor.errorStatus s' = true /\ Reactor.isOpen s' = false
  end.
Proof.
  unfold Reactor.open. intros Hopen.
  assert (forall s1, Reactor.pimpl_open s1 = false ->
            match Reactor.open_setup baud_rate os s1 with
            | (Thrown what, s2) => Some (Thrown what, s2)
            | (Returned, s2) =>
                match Reactor.run after_start s2 with
                | Some s3 =>
                    Some (Returned,
                          Reactor.with_open true
                            (Reactor.setErrorStatus false s3))
                | None => None
                end
            end = Some (r, s') ->
            match r with
            | Returned =>
                Reactor.errorStatus s' = false /\ Reactor.isOpen s' = true
                /\ Reactor.device_opens os = true
                /\ Reactor.baud_rate_accepted os = true
                /\ Reactor.parity_accepted os = true
                /\ Reactor.csize_accepted os = true
                /\ Reactor.flow_accepted os = true
                /\ Reactor.stop_accepted os = true
                /\ Reactor.thread_starts os = true
            | Thrown _ =>
                Reactor.errorStatus s' = true /\ Reactor.isOpen s' = false
            end) as Hbody.
  { clear. intros s1 Hclosed Hbody.
    destruct (Reactor.open_setup baud_rate os s1) as [r2 s2] eqn:Hsetup.
    destruct (open_setup_spec _ _ _ _ _ Hsetup)
      as (Herr & Hflag & _ & _ & _ & Hr).
    destruct r2.
    - destruct (Reactor.run after_start s2) as [s3|]; [|discriminate].
      injection Hbody as <- <-. simpl. tauto.
    - injection Hbody as <- <-.
      unfold Reactor.errorStatus, Reactor.isOpen. split; congruence. }
  destruct (Reactor.isOpen s) eqn:Hflag.
  - destruct (Reactor.close before_post during_join s) as [[r1 s1]|]
      eqn:Hclose; [|discriminate].
    destruct (close_spec _ _ _ _ _ Hclose) as [_ Hdone].
    destruct (Hdone Hflag) as (Hclosed & _ & _ & _ & Hthrown & Hret & _).
    destruct r1.
    + now apply (Hbody s1).
    + injection Hopen as <- <-. split; [|exact Hclosed].
      destruct (Reactor.errorStatus s1); [reflexivity|].
      assert (Thrown what = Returned) by now apply Hret.
      discriminate.
  - now apply (Hbody s).
Qed.

(** The configuration calls of the blocking worker's [open] touch the
    descriptor and the console only. *)
Lemma open_configure_frame (os : BlockingWorker.open_answers)
    (s : BlockingWorker.AsyncSerialImpl) :
  let s' := BlockingWorker.open_configure os s in
  BlockingWorker.pimpl_open s' = BlockingWorker.pimpl_open s
  /\ BlockingWorker.pimpl_error s' = BlockingWorker.pimpl_error s
  /\ BlockingWorker.thread_running s' = BlockingWorker.thread_running s
  /\ BlockingWorker.fd s' = BlockingWorker.open_result os
  /\ BlockingWorker.fd_is_open s'
     = (0 <=? BlockingWorker.open_result os)%Z
  /\ BlockingWorker.console s'
     = BlockingWorker.console s ++ WorkerSpec.configuration_messages os.
Proof.
  unfold BlockingWorker.open_configure, BlockingWorker.print,
    WorkerSpec.configuration_messages.
  destruct (BlockingWorker.tiocexcl_status os <? 0)%Z,
           (BlockingWorker.setfl_status os <? 0)%Z,
           (BlockingWorker.tcgetattr_status os <? 0)%Z,
           (BlockingWorker.tcsetattr_status os <? 0)%Z,
           (BlockingWorker.iossiospeed_status os <? 0)%Z;
    simpl; rewrite <- ?app_assoc, ?app_nil_r; repeat split.
Qed.

(** C4, as stated, fails: in the blocking-worker model, with a
    configuration call rejected, [open] returns, the engine is marked open
    and the error flag is clear. *)
Lemma C4_worker_open_returns_on_rejected_configuration :
  (BlockingWorker.tcsetattr_status WorkerSpec.tcsetattr_rejected < 0)%Z
  /\ exists s',
       BlockingWorker.open WorkerSpec.tcsetattr_rejected []
         (BlockingWorker.init 0 []) = Some (Returned, s')
       /\ BlockingWorker.isOpen s' = true
       /\ BlockingWorker.errorStatus s' = false
       /\ BlockingWorker.console s'
          = ["tcsetattr(pimpl->fd, TCSANOW, &options)"%string].
Proof.
  split; [reflexivity|]. eexists. split; [reflexivity|].
  repeat split.
Qed.

(** C4, amended.  In the reactor model [open] throws, and leaves the
    engine not marked open, whenever the device cannot be opened or one of
    the line parameters is not accepted.  In the blocking-worker model,
    once [::open] has returned a descriptor and provided the thread
    starts, [open] on an engine that is not open does not fail whatever
    the configuration calls answer: each call that fails is reported on
    the console, and [open] returns with the engine marked open, the
    error flag clear and the read thread running. *)
Theorem C4_open_fails_in_reactor_and_only_logs_in_worker :
  (forall baud_rate os before_post during_join after_start s r s',
     Reactor.open baud_rate os before_post during_join after_start s
     = Some (r, s') ->
     Reactor.device_opens os = false
     \/ Reactor.baud_rate_accepted os = false
     \/ Reactor.parity_accepted os = false
     \/ Reactor.csize_accepted os = false
     \/ Reactor.flow_accepted os = false
     \/ Reactor.stop_accepted os = false ->
     (exists what, r = Thrown what) /\ Reactor.isOpen s' = false)
  /\ (forall os evs s,
        BlockingWorker.isOpen s = false ->
        (0 <= BlockingWorker.open_result os)%Z ->
        BlockingWorker.thread_starts os = true ->
        exists s',
          BlockingWorker.open os evs s = Some (Returned, s')
          /\ BlockingWorker.isOpen s' = true
          /\ BlockingWorker.errorStatus s' = false
          /\ BlockingWorker.thread_running s' = true
          /\ BlockingWorker.fd_is_open s' = true
          /\ BlockingWorker.console s'
             = BlockingWorker.console s
               ++ WorkerSpec.configuration_messages os).
Proof.
  split.
  - intros baud_rate os bp dj st s r s' Hopen Hrejected.
    pose proof (reactor_open_flags _ _ _ _ _ _ _ _ Hopen) as Hflags.
    destruct r as [|what].
    + destruct Hflags as (_ & _ & H1 & H2 & H3 & H4 & H5 & H6 & _).
      destruct Hrejected as [H | [H | [H | [H | [H | H]]]]]; congruence.
    + split; [now exists what | apply Hflags].
  - intros os evs s Hclosed Hfd Hthread.
    rewrite (worker_open_spec os evs s Hclosed), Hthread.
    eexists. split; [reflexivity|].
    destruct (open_configure_frame os
                (BlockingWorker.setErrorStatus true s))
      as (_ & _ & _ & _ & Hfd' & Hconsole).
    unfold BlockingWorker.isOpen, BlockingWorker.errorStatus. simpl.
    rewrite Hfd', Hconsole. repeat split. now apply Z.leb_le.
Qed.

(** The device does not open in the reactor; [tcsetattr] rejects the
    attributes in the blocking worker. *)
Lemma C4_witness :
  (exists what s',
     Reactor.open 9600 (Reactor.mkAnswers false true true true true true true)
       [] [] [] (Reactor.init 0 []) = Some (Thrown what, s')
     /\ Reactor.isOpen s' = false)
  /\ (exists s',
        BlockingWorker.open WorkerSpec.tcsetattr_rejected [] (BlockingWorker.init 0 [])
        = Some (Returned, s')
        /\ BlockingWorker.isOpen s' = true).
Proof.
  split.
  - destruct (Reactor.open 9600
                (Reactor.mkAnswers false true true true true true true)
                [] [] [] (Reactor.init 0 [])) as [[r s']|] eqn:Hopen;
      [|vm_compute in Hopen; discriminate].
    destruct (proj1 C4_open_fails_in_reactor_and_only_logs_in_worker
                _ _ _ _ _ _ _ _ Hopen (or_introl eq_refl))
      as [[what ->] Hclosed].
    now exists what, s'.
  - destruct (proj2 C4_open_fails_in_reactor_and_only_logs_in_worker
                WorkerSpec.tcsetattr_rejected [] (BlockingWorker.init 0 [])
                eq_refl ltac:(vm_compute; discriminate) eq_refl)
      as (s' & Hopen & Hflag & _).
    now exists s'.
Defined.

(** C5.  In the blocking-worker model [open] clears the error flag and
    sets the open flag before it creates the thread: when the creation of
    the thread throws, the exception leaves [open] with the error flag
    clear and the engine marked open, and no thread running. *)
Theorem C5_worker_thread_start_failure_leaves_engine_marked_open
    (os : BlockingWorker.open_answers) (evs : list BlockingWorker.event)
    (s : BlockingWorker.AsyncSerialImpl) :
  BlockingWorker.isOpen s = false ->
  BlockingWorker.thread_starts os = false ->
  exists s',
    BlockingWorker.open os evs s
    = Some (Thrown "boost::thread_resource_error", s')
    /\ BlockingWorker.errorStatus s' = false
    /\ BlockingWorker.isOpen s' = true
    /\ BlockingWorker.thread_running s' = BlockingWorker.thread_running s.
Proof.
  intros Hclosed Hthread.
  rewrite (worker_open_spec os evs s Hclosed), Hthread.
  eexists. split; [reflexivity|].
  destruct (open_configure_frame os (BlockingWorker.setErrorStatus true s))
    as (_ & _ & Ht & _).
  unfold BlockingWorker.isOpen, BlockingWorker.errorStatus. simpl.
  rewrite Ht. repeat split.
Qed.

(** A fresh engine, a device that opens as descriptor 3 and accepts its
    configuration, and a thread that cannot be created. *)
Lemma C5_witness :
  exists s',
    BlockingWorker.open (BlockingWorker.mkAnswers 3 0 0 0 0 0 false) []
      (BlockingWorker.init 0 [])
    = Some (Thrown "boost::thread_resource_error", s')
    /\ BlockingWorker.errorStatus s' = false
    /\ BlockingWorker.isOpen s' = true.
Proof.
  destruct (C5_worker_thread_start_failure_leaves_engine_marked_open
              (BlockingWorker.mkAnswers 3 0 0 0 0 0 false) []
              (BlockingWorker.init 0 []) eq_refl eq_refl)
    as (s' & Hopen & Herr & Hflag & _).
  now exists s'.
Defined.

End Opening.

(** ** Closing the device *)

Section Closing.

(** C6.  In both models [close()] on an engine that is not open returns
    at once, without error, and changes nothing.  On an open engine it
    throws "Error while closing the device" exactly when the error flag is
    set once the background thread has been joined, and returns normally
    exactly when it is clear; either way the engine is no longer marked
    open and the background thread has ended, and [close()] does return.
    The blocking worker closes its descriptor in every case.  The reactor
    does not release its port in every case: the port is closed when the
    thread is still inside [run], or the port closed already, at the time
    [doClose] is posted; but when the read that is outstanding fails after
    [pimpl->open=false] and before [io.post(doClose)], [readEnd] takes the
    failure for the effect of the close and ignores it, the thread finds
    no work left and leaves [run], [doClose] is posted to an io_service
    that nobody runs, and [close()] returns normally with the port still
    open. *)
Theorem C6_close_leaves_port_open_when_read_fails_before_post :
  (forall before_post during_join s,
     Reactor.isOpen s = false ->
     Reactor.close before_post during_join s = Some (Returned, s))
  /\ (forall before_post during_join s r s',
        Reactor.isOpen s = true ->
        Reactor.close before_post during_join s = Some (r, s') ->
        (r = Thrown "Error while closing the device"
         <-> Reactor.errorStatus s' = true)
        /\ (r = Returned <-> Reactor.errorStatus s' = false)
        /\ Reactor.isOpen s' = false
        /\ Reactor.thread_running s' = false
        /\ (forall s0,
              Reactor.run before_post (Reactor.close_begin s) = Some s0 ->
              Reactor.thread_running s0 = true
              \/ Reactor.port_is_open s0 = false ->
              Reactor.port_is_open s' = false))
  /\ (forall error data ecs s,
        Reactor.isOpen s = true ->
        Reactor.errorStatus s = false ->
        Reactor.thread_running s = true ->
        Reactor.port_is_open s = true ->
        Reactor.port_reading s = 1 ->
        Reactor.port_writing s = 0 ->
        Reactor.io_posted s = [] ->
        failed error = true ->
        exists s',
          Reactor.close
            [Reactor.ReadComplete error data ecs; Reactor.RunReturns] [] s
          = Some (Returned, s')
          /\ Reactor.port_is_open s' = true
          /\ Reactor.io_posted s' = [Reactor.DoClose]
          /\ Reactor.isOpen s' = false
          /\ Reactor.thread_running s' = false)
  /\ (forall s, exists evs r s', Reactor.close [] evs s = Some (r, s'))
  /\ (forall evs s,
        BlockingWorker.isOpen s = false ->
        BlockingWorker.close evs s = Some (Returned, s))
  /\ (forall evs s r s',
        BlockingWorker.isOpen s = true ->
        BlockingWorker.close evs s = Some (r, s') ->
        (r = Thrown "Error while closing the device"
         <-> BlockingWorker.errorStatus s' = true)
        /\ (r = Returned <-> BlockingWorker.errorStatus s' = false)
        /\ BlockingWorker.isOpen s' = false
        /\ BlockingWorker.fd_is_open s' = false
        /\ BlockingWorker.thread_running s' = false)
  /\ (forall s, exists evs r s', BlockingWorker.close evs s = Some (r, s')).
Proof.
  split; [|split; [|split; [|split; [|split; [|split]]]]].
  - intros bp dj s Hclosed. unfold Reactor.close. now rewrite Hclosed.
  - intros bp dj s r s' Hopen Hclose.
    destruct (close_spec _ _ _ _ _ Hclose) as [_ Hdone].
    destruct (Hdone Hopen) as (Hflag & Hthread & _ & _ & Hthrown & Hret & _).
    repeat split; try apply Hthrown; try apply Hret; auto.
    intros s0 Hrun0 Hlive.
    now apply (close_releases_port _ _ _ _ _ _ Hopen Hclose Hrun0).
  - intros error data ecs s Hopen Herr Hthread Hport Hreading Hwriting
      Hposted Hfailed.
    unfold Reactor.close, Reactor.close_begin. rewrite Hopen.
    unfold Reactor.isOpen, Reactor.errorStatus in *. simpl.
    rewrite Hthread, Hreading, Hfailed. simpl.
    unfold Reactor.readEnd, Reactor.isOpen, Reactor.out_of_work. simpl.
    rewrite Hfailed. simpl. rewrite Hthread, Hposted, Hwriting. simpl.
    unfold Reactor.close_end, Reactor.errorStatus. simpl. rewrite Herr.
    eexists. split; [reflexivity|]. simpl. rewrite Hposted, Hport. auto.
  - apply close_returns.
  - intros evs s Hclosed. unfold BlockingWorker.close. now rewrite Hclosed.
  - intros evs s r s' Hopen Hclose.
    destruct (worker_close_spec _ _ _ _ Hclose) as [_ Hdone].
    destruct (Hdone Hopen) as (Hflag & Hthread & Hfd & _ & Hthrown & Hret).
    repeat split; try apply Hthrown; try apply Hret; auto.
  - apply worker_close_returns.
Qed.

(** A fresh reactor engine is opened and its first read armed; [close()] is
    called and the read fails with code 5 before [doClose] is posted: the
    call returns normally, the port is open and [doClose] is left in the
    queue.  The same engine closed with no event in between has its port
    closed.  A blocking-worker engine with its thread blocked in [::read]
    is closed, the read failing once the descriptor is closed. *)
Lemma C6_witness :
  match Reactor.open 9600
          (Reactor.mkAnswers true true true true true true true) [] [] []
          (Reactor.init 0 []) with
  | Some (_, s0) =>
      match Reactor.run [Reactor.Dispatch no_errors] s0 with
      | Some s =>
          match Reactor.close
                  [Reactor.ReadComplete 5 [] no_errors; Reactor.RunReturns]
                  [] s with
          | Some (r, s') =>
              r = Returned /\ Reactor.port_is_open s' = true
              /\ Reactor.io_posted s' = [Reactor.DoClose]
              /\ Reactor.thread_running s' = false
          | None => False
          end
          /\ match Reactor.close []
                     (ReactorSpec.join_schedule
                        (Reactor.close_post (Reactor.close_begin s))) s with
             | Some (r, s') =>
                 r = Returned /\ Reactor.port_is_open s' = false
                 /\ Reactor.thread_running s' = false
             | None => False
             end
      | None => False
      end
  | None => False
  end
  /\ (let b :=
        BlockingWorker.with_thread_running true
          (BlockingWorker.with_fd_is_open true
             (BlockingWorker.with_open true (BlockingWorker.init 3 []))) in
      match BlockingWorker.close [BlockingWorker.ReadReturns (-1) []] b with
      | Some (r, b') =>
          r = Returned /\ BlockingWorker.fd_is_open b' = false
          /\ BlockingWorker.thread_running b' = false
      | None => False
      end).
Proof.
  destruct C6_close_leaves_port_open_when_read_fails_before_post
    as (_ & Hreactor & Hrace & _ & _ & Hworker & _).
  split.
  - destruct (Reactor.open 9600
                (Reactor.mkAnswers true true true true true true true)
                [] [] [] (Reactor.init 0 [])) as [[r0 s0]|] eqn:Hopen;
      [|vm_compute in Hopen; discriminate].
    vm_compute in Hopen. injection Hopen as <- <-.
    destruct (Reactor.run [Reactor.Dispatch no_errors] _) as [s|] eqn:Hrun;
      [|vm_compute in Hrun; discriminate].
    vm_compute in Hrun. injection Hrun as <-.
    split.
    + match goal with
      | |- match Reactor.close _ _ ?s with _ => _ end =>
          destruct (Hrace 5%Z [] no_errors s eq_refl eq_refl eq_refl eq_refl
                      eq_refl eq_refl eq_refl eq_refl)
            as (s' & -> & Hport & Hposted & _ & Hthread)
      end.
      auto.
    + match goal with
      | |- match ?c with _ => _ end =>
          destruct c as [[r s']|] eqn:Hclose;
            [|vm_compute in Hclose; discriminate]
      end.
      match type of Hclose with
      | Reactor.close ?bp ?dj ?s = _ =>
          destruct (Hreactor bp dj s _ _ eq_refl Hclose)
            as (_ & Hret & _ & Hthread & Hport)
      end.
      split; [|split; [|assumption]].
      * apply Hret. vm_compute in Hclose. now injection Hclose as <- <-.
      * apply (Hport _ eq_refl). now left.
  - intros b.
    destruct (BlockingWorker.close [BlockingWorker.ReadReturns (-1) []] b)
      as [[r b']|] eqn:Hclose; [|vm_compute in Hclose; discriminate].
    destruct (Hworker _ b _ _ eq_refl Hclose)
      as (_ & Hret & _ & Hfd & Hthread).
    split; [|split; assumption].
    apply Hret. vm_compute in Hclose. now injection Hclose as <- <-.
Defined.

End Closing.

(** ** The read loop of the blocking worker *)

Section ReadLoop.
Import BlockingWorker.

(** C7, as stated, fails: a read that returns zero, with a callback
    registered, is delivered to the callback as an empty chunk. *)
Lemma C7_zero_length_chunk_is_delivered :
  let s := WorkerSpec.open_and_looping in
  delivered s = []
  /\ delivered (snd (doRead_iteration 0 s)) = [(7, [])].
Proof. split; reflexivity. Qed.

(** C7, amended.  In the blocking-worker read loop a read result of
    negative length is not delivered to the callback; a result of zero or
    positive length is delivered to the registered callback, zero length
    included, as the first [received] bytes of [readBuffer].  A negative
    result while the open flag is true sets the error flag and the loop
    goes on.  The loop ends, and the thread with it, exactly at a read
    that fails while the open flag is false: for one event among the
    calls of other threads, and for the loop fed with a list of read
    results. *)
Theorem C7_read_loop_delivery_and_termination :
  (forall received s,
     let (goes_on, s') := doRead_iteration received s in
     ((received < 0)%Z -> delivered s' = delivered s)
     /\ ((0 <= received)%Z ->
         delivered s'
         = match callback s with
           | Some f =>
               delivered s
               ++ [(f, firstn (Z.to_nat received) (readBuffer s))]
           | None => delivered s
           end)
     /\ ((received < 0)%Z -> isOpen s = true ->
         errorStatus s' = true /\ goes_on = true)
     /\ (goes_on = false <-> (received < 0)%Z /\ isOpen s = false))
  /\ (forall e s s',
        step e s = Some s' -> thread_running s = true ->
        (thread_running s' = false
         <-> exists received data,
               e = ReadReturns received data
               /\ (received < 0)%Z /\ isOpen s = false))
  /\ (forall reads s,
        fst (doRead reads s) = false
        <-> isOpen s = false /\ exists received,
                                 In received reads /\ (received < 0)%Z).
Proof.
  split; [|split].
  - intros received s.
    pose proof (doRead_iteration_spec received s) as Hspec.
    destruct (doRead_iteration received s) as [goes_on s'].
    destruct Hspec as (Hstop & Herr & Hdeliver).
    destruct (Z.lt_ge_cases received 0) as [Hneg | Hpos].
    + destruct (isOpen s) eqn:Hopen.
      * destruct (Herr Hneg eq_refl) as [-> ->].
        repeat split; auto; try lia; try discriminate;
          try (intros [? ?]; discriminate).
      * destruct (Hstop Hneg eq_refl) as [-> ->].
        repeat split; auto; try lia; try discriminate.
    + destruct (Hdeliver Hpos) as [-> ->].
      repeat split; try lia; try discriminate;
        try (intros [? ?]; lia).
      intros _. destruct (callback s); reflexivity.
  - intros e s s' Hstep Hthread.
    destruct e as [received data|r data size|r data|r str|f|];
      simpl in Hstep.
    + rewrite Hthread in Hstep. simpl in Hstep.
      match type of Hstep with
      | (if ?c then _ else _) = _ => destruct c; [|discriminate]
      end.
      match type of Hstep with
      | context [doRead_iteration received ?s0] =>
          pose proof (doRead_iteration_spec received s0) as Hspec;
          pose proof (doRead_iteration_frame received s0) as Hframe;
          assert (isOpen s0 = isOpen s /\ thread_running s0 = true)
            as [Hopen0 Hthread0]
            by (destruct (received <? 0)%Z; split; auto);
          destruct (doRead_iteration received s0) as [goes_on s1]
      end.
      simpl in Hframe. destruct Hframe as (_ & _ & Ht & _).
      destruct Hspec as (Hstop & Herr & Hdeliver).
      injection Hstep as <-.
      destruct (Z.lt_ge_cases received 0) as [Hneg | Hpos].
      * destruct (isOpen s) eqn:Hopen.
        -- destruct (Herr Hneg Hopen0) as [-> _].
           rewrite Ht, Hthread0. split; [discriminate|].
           intros (? & ? & Heq & _ & H). discriminate.
        -- destruct (Hstop Hneg Hopen0) as [-> _]. simpl.
           split; [|reflexivity]. intros _. now exists received, data.
      * destruct (Hdeliver Hpos) as [-> _].
        rewrite Ht, Hthread0. split; [discriminate|].
        intros (? & ? & Heq & H & _). injection Heq as <- _. lia.
    + injection Hstep as <-.
      destruct (worker_write_frame s r (bytes_of_range data size)
                  (Z.of_nat size)) as (_ & _ & Ht & _).
      unfold write. cbv zeta. rewrite Ht, Hthread.
      split; [discriminate | intros (? & ? & Heq & _); discriminate].
    + injection Hstep as <-.
      destruct (worker_write_frame s r data (Z.of_nat (List.length data)))
        as (_ & _ & Ht & _).
      unfold write_vector. cbv zeta. rewrite Ht, Hthread.
      split; [discriminate | intros (? & ? & Heq & _); discriminate].
    + injection Hstep as <-.
      destruct (worker_write_frame s r (bytes_of_string str)
                  (Z.of_nat (String.length str))) as (_ & _ & Ht & _).
      unfold writeString. cbv zeta. rewrite Ht, Hthread.
      split; [discriminate | intros (? & ? & Heq & _); discriminate].
    + injection Hstep as <-. simpl. rewrite Hthread.
      split; [discriminate | intros (? & ? & Heq & _); discriminate].
    + injection Hstep as <-. simpl. rewrite Hthread.
      split; [discriminate | intros (? & ? & Heq & _); discriminate].
  - induction reads as [|received reads IH]; simpl; intros s.
    + split; [discriminate | intros (_ & ? & [] & _)].
    + pose proof (doRead_iteration_spec received s) as Hspec.
      pose proof (doRead_iteration_frame received s) as Hframe.
      destruct (doRead_iteration received s) as [goes_on s1].
      simpl in Hframe. destruct Hframe as (Hopen1 & _).
      destruct Hspec as (Hstop & Herr & Hdeliver).
      destruct (Z.lt_ge_cases received 0) as [Hneg | Hpos].
      * destruct (isOpen s) eqn:Hopen.
        -- destruct (Herr Hneg eq_refl) as [-> _].
           rewrite IH. unfold isOpen in *. rewrite Hopen1, Hopen.
           split; intros [H _]; discriminate.
        -- destruct (Hstop Hneg eq_refl) as [-> _]. simpl.
           split; [|reflexivity]. intros _. split; [reflexivity|].
           exists received. auto.
      * destruct (Hdeliver Hpos) as [-> _].
        rewrite IH. unfold isOpen in *. rewrite Hopen1.
        split; intros (Hclosed & r & Hin & Hneg);
          (split; [exact Hclosed|]).
        -- exists r. auto.
        -- destruct Hin as [<- | Hin]; [lia | now exists r].
Qed.

(** An open engine with a callback: a read of zero bytes is delivered, a
    read that fails sets the error flag and the loop goes on; once the
    engine is marked closed, a read that fails ends the thread. *)
Lemma C7_witness :
  let s := WorkerSpec.open_and_looping in
  delivered (snd (doRead_iteration 0 s)) = [(7, [])]
  /\ errorStatus (snd (doRead_iteration (-1) s)) = true
  /\ fst (doRead_iteration (-1) s) = true
  /\ match step (ReadReturns (-1) []) (close_begin s) with
     | Some s' => thread_running s' = false
     | None => False
     end.
Proof.
  intros s.
  destruct C7_read_loop_delivery_and_termination as (Hturn & Hstep & _).
  pose proof (Hturn 0%Z s) as H0. pose proof (Hturn (-1)%Z s) as H1.
  destruct (doRead_iteration 0 s) as [g0 s0].
  destruct (doRead_iteration (-1) s) as [g1 s1].
  destruct H0 as (_ & Hdeliver & _). destruct H1 as (_ & _ & Herr & _).
  split; [apply Hdeliver; lia|].
  destruct (Herr ltac:(lia) eq_refl) as [He Hg].
  split; [exact He|]. split; [exact Hg|].
  destruct (step (ReadReturns (-1) []) (close_begin s)) as [s'|] eqn:Hs;
    [|vm_compute in Hs; discriminate].
  apply (Hstep _ _ _ Hs eq_refl).
  exists (-1)%Z, []. repeat split; try lia.
Defined.

End ReadLoop.

(** ** The error flag *)

Section ErrorFlag.




End ErrorFlag.

(** ** The error code 45 *)

Section DeviceBusy.

(** C9, as stated, fails.  On the platform with that error the engine is
    built as the blocking worker: a read that fails while the engine is
    open changes the error flag, from clear to set.  In the reactor build
    a read that completes with code 45 on an open engine sets the error
    flag and closes the port. *)
Lemma C9_failed_read_sets_error_flag :
  (BlockingWorker.isOpen WorkerSpec.open_and_looping = true
   /\ BlockingWorker.errorStatus WorkerSpec.open_and_looping = false
   /\ BlockingWorker.errorStatus
        (snd (BlockingWorker.doRead_iteration (-1)
                WorkerSpec.open_and_looping)) = true)
  /\ (Reactor.isOpen ReactorSpec.open_and_reading = true
      /\ Reactor.errorStatus ReactorSpec.open_and_reading = false
      /\ Reactor.port_is_open ReactorSpec.open_and_reading = true
      /\ Reactor.errorStatus
           (readEnd false 45 0 no_errors ReactorSpec.open_and_reading) = true
      /\ Reactor.port_is_open
           (readEnd false 45 0 no_errors ReactorSpec.open_and_reading)
         = false).
Proof. repeat split. Qed.

(** C9, amended.  On the platform with the transient error the engine is
    built as the blocking worker, where [readEnd] is the empty function
    and a read that fails while the engine is open, with code 45 or any
    other, is not fatal: the loop goes on to the next read and nothing is
    closed, but the error flag is set.  The branch of [readEnd] that
    retries the read on code 45 without any other change stands under
    [#ifdef __APPLE__] inside the implementation compiled only when
    [__APPLE__] is not defined, so no build contains it: in the reactor
    build a read that completes with code 45 on an open engine is handled
    like any other failure, the port is closed, the error flag set and no
    read armed. *)
Theorem C9_read_failure_on_each_build :
  (forall received (b : BlockingWorker.AsyncSerialImpl),
     (received < 0)%Z ->
     BlockingWorker.isOpen b = true ->
     BlockingWorker.doRead_iteration received b
     = (true, BlockingWorker.setErrorStatus true b))
  /\ (forall n ecs (b : BlockingWorker.AsyncSerialImpl),
        readEnd true 45 n ecs b = b)
  /\ (forall n ecs (s : Reactor.AsyncSerialImpl),
        Reactor.isOpen s = true ->
        let s' := readEnd false 45 n ecs s in
        s' = Reactor.setErrorStatus true (Reactor.doClose ecs s)
        /\ Reactor.errorStatus s' = true
        /\ Reactor.port_is_open s' = false
        /\ Reactor.port_reading s' = Reactor.port_reading s)
  /\ (forall n ecs (s : Reactor.AsyncSerialImpl),
        Reactor.readEnd true 45 n ecs s = Reactor.doRead s).
Proof.
  split; [|split; [|split]].
  - intros received b Hneg Hopen. unfold BlockingWorker.doRead_iteration.
    apply Z.ltb_lt in Hneg. now rewrite Hneg, Hopen.
  - reflexivity.
  - intros n ecs s Hopen s'. subst s'. simpl.
    rewrite (readEnd_failure 45 n ecs s eq_refl Hopen).
    destruct (doClose_frame ecs s)
      as (_ & _ & _ & _ & Hr & _ & _ & _ & _ & _ & Hp).
    unfold Reactor.errorStatus, Reactor.setErrorStatus. simpl.
    rewrite Hr, Hp. auto.
  - reflexivity.
Qed.

(** A read fails on an open blocking-worker engine: the loop goes on with
    the error flag set and the descriptor still open.  Code 45 on an open
    reactor engine: the error flag is set and the port closed. *)
Lemma C9_witness :
  (let turn :=
     BlockingWorker.doRead_iteration (-1) WorkerSpec.open_and_looping in
   fst turn = true
   /\ BlockingWorker.errorStatus (snd turn) = true
   /\ BlockingWorker.fd_is_open (snd turn) = true)
  /\ Reactor.errorStatus
       (readEnd false 45 0 no_errors ReactorSpec.open_and_reading) = true
  /\ Reactor.port_is_open
       (readEnd false 45 0 no_errors ReactorSpec.open_and_reading) = false.
Proof.
  destruct C9_read_failure_on_each_build as (Hworker & _ & Hreactor & _).
  split.
  - intros turn. subst turn.
    rewrite (Hworker (-1)%Z WorkerSpec.open_and_looping
               ltac:(reflexivity) eq_refl).
    repeat split.
  - destruct (Hreactor 0 no_errors ReactorSpec.open_and_reading eq_refl)
      as (_ & Herr & Hport & _).
    split; [exact Herr | exact Hport].
Defined.

End DeviceBusy.

(** ** The three ways to write *)

Section WriteEntryPoints.

(** C10.  [write(data, size)], [write(vector)] and [writeString(string)]
    called on the same bytes give the same state of the engine, the log
    of the bytes handed to the transport included, in the reactor model
    and, for the same answer of [::write], in the blocking-worker
    model. *)
Theorem C10_write_entry_points_agree
    (data : nat -> char) (size : nat) (vec : list char) (str : string) :
  bytes_of_range data size = vec ->
  bytes_of_string str = vec ->
  (forall s,
     Reactor.write data size s = Reactor.write_vector vec s
     /\ Reactor.writeString str s = Reactor.write_vector vec s)
  /\ (forall r s,
        BlockingWorker.write r data size s
        = BlockingWorker.write_vector r vec s
        /\ BlockingWorker.writeString r str s
           = BlockingWorker.write_vector r vec s).
Proof.
  intros Hrange Hstring.
  assert (List.length vec = size) as Hlen_vec.
  { rewrite <- Hrange. apply bytes_of_range_length. }
  assert (String.length str = size) as Hlen_str.
  { now rewrite <- bytes_of_string_length, Hstring. }
  split.
  - intros s. unfold Reactor.write, Reactor.write_vector, Reactor.writeString.
    now rewrite Hrange, Hstring.
  - intros r s.
    unfold BlockingWorker.write, BlockingWorker.write_vector,
      BlockingWorker.writeString.
    rewrite Hrange, Hstring, Hlen_vec, Hlen_str. split; reflexivity.
Qed.

(** The bytes [h], [i] as a range of memory, as a vector and as a
    string. *)
Lemma C10_witness :
  let data := fun i => nth i ["h"%char; "i"%char] "000"%char in
  Reactor.write data 2 (Reactor.init 0 [])
  = Reactor.write_vector ["h"%char; "i"%char] (Reactor.init 0 [])
  /\ BlockingWorker.writeString 2 "hi" (BlockingWorker.init 3 [])
     = BlockingWorker.write_vector 2 ["h"%char; "i"%char]
         (BlockingWorker.init 3 []).
Proof.
  intros data.
  destruct (C10_write_entry_points_agree data 2 ["h"%char; "i"%char] "hi"
              eq_refl eq_refl) as [Hreactor Hworker].
  split; [apply Hreactor | apply Hworker].
Defined.

End WriteEntryPoints.

(** ** The read channel of the reactor *)

Section ReactorReadChannel.
Import Reactor ReactorSpec.

Lemma firstn_length_app (A : Type) (l l' : list A) :
  firstn (List.length l) (l ++ l') = l.
Proof.
  induction l as [|a l IH]; simpl; [now destruct l' | now rewrite IH].
Qed.

Lemma doClose_callback (ecs : error_code * error_code) (s : AsyncSerialImpl) :
  callback (doClose ecs s) = callback s
  /\ readBuffer (doClose ecs s) = readBuffer s.
Proof.
  unfold doClose, port_cancel, port_close, setErrorStatus.
  destruct (failed (fst ecs)), (failed (snd ecs)); simpl; split; reflexivity.
Qed.

Lemma doWrite_callback (s : AsyncSerialImpl) :
  callback (doWrite s) = callback s.
Proof. unfold doWrite. destruct (writeBuffer s); reflexivity. Qed.

Lemma writeEnd_callback (error : error_code) (ecs : error_code * error_code)
    (s : AsyncSerialImpl) :
  callback (writeEnd error ecs s) = callback s.
Proof.
  unfold writeEnd. destruct (failed error); simpl.
  - apply (doClose_callback ecs (setErrorStatus true s)).
  - destruct (writeQueue s); reflexivity.
Qed.

(** One event: what it adds to the log of callback invocations and what
    callback it leaves registered. *)
Lemma step_deliveries (e : event) (s s' : AsyncSerialImpl) :
  step e s = Some s' ->
  forall evs,
  delivered s ++ deliveries (callback s) (e :: evs)
  = delivered s' ++ deliveries (callback s') evs.
Proof.
  destruct e as [ecs|error data ecs|error ecs| |data size|data|str|f|];
    intros Hstep evs; step_cases Hstep;
    try (injection Hstep as <-; reflexivity).
  - injection Hstep as <-. simpl. destruct h; simpl.
    + reflexivity.
    + rewrite doWrite_callback.
      now rewrite (proj1 (proj2 (proj2 (proj2 (proj2
                     (doWrite_frame (with_io_posted l s))))))).
    + destruct (doClose_callback ecs (with_io_posted l s)) as [-> _].
      destruct (doClose_frame ecs (with_io_posted l s))
        as (_ & _ & _ & _ & _ & -> & _).
      reflexivity.
  - simpl. destruct (failed error) eqn:Hfailed; injection Hstep as <-.
    + unfold readEnd, isOpen. rewrite Hfailed. simpl.
      destruct (pimpl_open s); [|reflexivity].
      unfold setErrorStatus. simpl.
      destruct (doClose_callback ecs
                  (with_port_reading (pred (port_reading s)) s)) as [-> _].
      destruct (doClose_frame ecs
                  (with_port_reading (pred (port_reading s)) s))
        as (_ & _ & _ & _ & _ & -> & _).
      reflexivity.
    + unfold readEnd. rewrite Hfailed. simpl.
      destruct (callback s) as [f|] eqn:Hcb; simpl; rewrite ?Hcb;
        [|reflexivity].
      now rewrite firstn_length_app, <- app_assoc.
  - injection Hstep as <-. simpl. rewrite writeEnd_callback.
    now rewrite (proj1 (proj2 (proj2
                   (writeEnd_frame error ecs
                      (with_port_writing (pred (port_writing s)) s))))).
Qed.

Lemma run_deliveries (evs : list event) :
  forall s s',
  run evs s = Some s' ->
  delivered s' = delivered s ++ deliveries (callback s) evs.
Proof.
  induction evs as [|e evs IH]; simpl run; intros s s' Hrun.
  - injection Hrun as <-. simpl. now rewrite app_nil_r.
  - destruct (step e s) as [s1|] eqn:Hstep; [|discriminate].
    rewrite (IH _ _ Hrun). symmetry. now apply step_deliveries.
Qed.

(** X1.  Reactor model.  Along any list of events the log of callback
    invocations grows by exactly the bytes of the reads that completed
    without error, in their order of completion, each chunk whole and
    once, for the callback registered when the read completed; a chunk
    that completes while no callback is registered is dropped. *)
Theorem X1_reads_are_delivered_in_order
    (evs : list event) (s s' : AsyncSerialImpl) :
  run evs s = Some s' ->
  delivered s' = delivered s ++ deliveries (callback s) evs.
Proof. apply run_deliveries. Qed.

(** Two chunks arrive, the callback is replaced in between, a third
    arrives after the callback has been cleared. *)
Lemma X1_witness :
  match run [ReadComplete 0 ["a"%char; "b"%char] no_errors;
             CallSetReadCallback 2;
             ReadComplete 0 ["c"%char] no_errors;
             CallClearReadCallback;
             ReadComplete 0 ["d"%char] no_errors]
          open_and_reading with
  | Some s' => delivered s' = [(1, ["a"%char; "b"%char]); (2, ["c"%char])]
  | None => False
  end.
Proof.
  destruct (run [ReadComplete 0 ["a"%char; "b"%char] no_errors;
                 CallSetReadCallback 2;
                 ReadComplete 0 ["c"%char] no_errors;
                 CallClearReadCallback;
                 ReadComplete 0 ["d"%char] no_errors] open_and_reading)
    as [s'|] eqn:Hrun; [|vm_compute in Hrun; discriminate].
  rewrite (X1_reads_are_delivered_in_order _ _ _ Hrun). reflexivity.
Defined.

Lemma run_deliveries_app (evs : list event) :
  forall s s' rest,
  run evs s = Some s' ->
  delivered s ++ deliveries (callback s) (evs ++ rest)
  = delivered s' ++ deliveries (callback s') rest.
Proof.
  induction evs as [|e evs IH]; simpl run; intros s s' rest Hrun.
  - now injection Hrun as <-.
  - destruct (step e s) as [s1|] eqn:Hstep; [|discriminate].
    rewrite <- (IH _ _ rest Hrun). now apply step_deliveries.
Qed.

Lemma deliveries_none (evs : list event) :
  existsb sets_callback evs = false -> deliveries None evs = [].
Proof.
  induction evs as [|e evs IH]; simpl; [reflexivity|].
  intros Hnone. apply orb_false_iff in Hnone as [He Hevs].
  destruct e; simpl in He; try discriminate; simpl; auto.
  destruct (failed error); simpl; auto.
Qed.

End ReactorReadChannel.

(** ** One read outstanding *)

Section ReactorOneRead.
Import Reactor ReactorSpec.

Lemma read_tokens_post (h : handler) (s : AsyncSerialImpl) :
  h <> DoRead -> read_tokens (io_post h s) = read_tokens s.
Proof.
  intros Hh. unfold read_tokens, io_post. simpl.
  rewrite count_occ_app. simpl.
  destruct (handler_eq_dec h DoRead); [contradiction | lia].
Qed.

Lemma step_read_inv (e : event) (s s' : AsyncSerialImpl) :
  step e s = Some s' -> read_inv s -> read_inv s'.
Proof.
  unfold read_inv.
  destruct e as [ecs|error data ecs|error ecs| |data size|data|str|f|];
    intros Hstep [Hle Hidle]; step_cases Hstep.
  - injection Hstep as <-.
    assert (thread_running (run_handler h ecs (with_io_posted l s)) = true
            /\ read_tokens (run_handler h ecs (with_io_posted l s))
               = read_tokens s) as [Ht Htok].
    { unfold read_tokens. rewrite Hposted.
      destruct h; simpl.
      - split; [assumption|].
        destruct (handler_eq_dec DoRead DoRead); [lia | contradiction].
      - destruct (doWrite_frame (with_io_posted l s))
          as (_ & _ & _ & -> & _ & -> & -> & _).
        simpl. split; [assumption | reflexivity].
      - destruct (doClose_frame ecs (with_io_posted l s))
          as (_ & _ & _ & _ & -> & _ & _ & -> & -> & _).
        simpl. split; [assumption | reflexivity]. }
    rewrite Ht, Htok. split; [assumption | discriminate].
  - apply andb_true_iff in Hc as [Hc _].
    apply andb_true_iff in Hc as [Hthread Hreading].
    apply Nat.ltb_lt in Hreading.
    assert (forall s1, Some s1 = Some s' -> s1 = s') as Hinj
      by (intros s1 H; now injection H).
    destruct (failed error) eqn:Hfailed; apply Hinj in Hstep; subst s'.
    + match goal with
      | |- context [readEnd false ?a ?b ?c ?d] =>
          destruct (readEnd_frame a b c d)
            as (_ & _ & _ & _ & _ & Hp & Ht & _)
      end.
      rewrite Ht. simpl. rewrite Hthread.
      split; [|discriminate].
      unfold read_tokens in *. rewrite Hp. simpl.
      unfold readEnd, isOpen. rewrite Hfailed. simpl.
      destruct (pimpl_open s); simpl.
      * unfold setErrorStatus. simpl.
        destruct (doClose_frame ecs
                    (with_port_reading (pred (port_reading s)) s))
          as (_ & _ & _ & _ & -> & _).
        simpl. lia.
      * lia.
    + unfold readEnd. rewrite Hfailed. simpl.
      unfold read_tokens in *.
      destruct (callback s); simpl; rewrite Hthread;
        (split; [lia | discriminate]).
  - apply andb_true_iff in Hc as [Hc _].
    apply andb_true_iff in Hc as [Hthread _].
    injection Hstep as <-.
    destruct (writeEnd_frame error ecs
                (with_port_writing (pred (port_writing s)) s))
      as (_ & Hr & _ & Hp & Ht & _).
    unfold read_tokens in *. rewrite Hr, Hp, Ht. simpl. rewrite Hthread.
    split; [assumption | discriminate].
  - apply andb_true_iff in Hc as [_ Hwork].
    injection Hstep as <-. unfold read_tokens. simpl.
    unfold out_of_work in Hwork.
    destruct (io_posted s); [|discriminate]. simpl in Hwork.
    apply andb_true_iff in Hwork as [Hr _]. apply Nat.eqb_eq in Hr.
    rewrite Hr. simpl. split; [lia | auto].
  - injection Hstep as <-. unfold write.
    rewrite read_tokens_post by discriminate. auto.
  - injection Hstep as <-. unfold write_vector.
    rewrite read_tokens_post by discriminate. auto.
  - injection Hstep as <-. unfold writeString.
    rewrite read_tokens_post by discriminate. auto.
  - injection Hstep as <-. auto.
  - injection Hstep as <-. auto.
Qed.

Lemma run_read_inv (evs : list event) :
  forall s s', run evs s = Some s' -> read_inv s -> read_inv s'.
Proof.
  induction evs as [|e evs IH]; simpl; intros s s' Hrun Hinv.
  - now injection Hrun as <-.
  - destruct (step e s) as [s1|] eqn:Hstep; [|discriminate].
    apply (IH _ _ Hrun). now apply step_read_inv with e s.
Qed.

Lemma close_read_inv (before_post during_join : list event)
    (s s' : AsyncSerialImpl) (r : outcome) :
  close before_post during_join s = Some (r, s') ->
  read_inv s -> read_inv s'.
Proof.
  intros Hclose Hinv.
  destruct (close_spec _ _ _ _ _ Hclose) as [Hnoop Hdone].
  destruct (isOpen s) eqn:Hopen.
  2:{ now destruct (Hnoop eq_refl) as [_ ->]. }
  destruct (Hdone eq_refl)
    as (_ & _ & _ & _ & _ & _ & s0 & s1 & Hrun0 & Hrun & _ & ->).
  assert (read_inv (close_begin s)) as Hbegin by exact Hinv.
  apply (run_read_inv _ _ _ Hrun0) in Hbegin.
  assert (read_inv (close_post s0)) as Hpost.
  { destruct Hbegin as [Hle Hidle]. unfold read_inv, close_post.
    rewrite read_tokens_post by discriminate. auto. }
  apply (run_read_inv _ _ _ Hrun) in Hpost.
  exact Hpost.
Qed.

(** The part of [open] before the thread is on its own posts [doRead]
    only on a port it has just opened. *)
Lemma open_setup_read_inv (baud_rate : N) (os : open_answers)
    (s1 s2 : AsyncSerialImpl) (r : outcome) :
  open_setup baud_rate os s1 = (r, s2) ->
  thread_running s1 = false -> read_inv s1 -> read_inv s2.
Proof.
  intros Hbody Hthread [Hle Hnone].
  specialize (Hnone Hthread).
  unfold read_inv.
  unfold open_setup, setErrorStatus, thread_start, io_post in Hbody.
  simpl in Hbody.
  destruct (port_is_open s1) eqn:Hport; simpl in Hbody.
  { injection Hbody as <- <-. unfold read_tokens in *. simpl.
    split; [assumption|]. intros _. rewrite Hport. auto. }
  assert (port_reading s1
          + count_occ handler_eq_dec (io_posted s1) DoRead = 0) as H0.
  { destruct Hnone as [H0 | H]; [exact H0 | discriminate]. }
  destruct (device_opens os); simpl in Hbody.
  2:{ injection Hbody as <- <-. unfold read_tokens. simpl.
      split; [lia | auto]. }
  destruct (baud_rate_accepted os); simpl in Hbody.
  2:{ injection Hbody as <- <-. unfold read_tokens. simpl.
      split; [lia | auto]. }
  destruct (parity_accepted os); simpl in Hbody.
  2:{ injection Hbody as <- <-. unfold read_tokens. simpl.
      split; [lia | auto]. }
  destruct (csize_accepted os); simpl in Hbody.
  2:{ injection Hbody as <- <-. unfold read_tokens. simpl.
      split; [lia | auto]. }
  destruct (flow_accepted os); simpl in Hbody.
  2:{ injection Hbody as <- <-. unfold read_tokens. simpl.
      split; [lia | auto]. }
  destruct (stop_accepted os); simpl in Hbody.
  2:{ injection Hbody as <- <-. unfold read_tokens. simpl.
      split; [lia | auto]. }
  destruct (thread_starts os); simpl in Hbody.
  2:{ injection Hbody as <- <-. unfold read_tokens. simpl.
      rewrite count_occ_app. simpl. split; [lia | auto]. }
  destruct (io_stopped s1); injection Hbody as <- <-;
    unfold read_tokens; simpl; rewrite count_occ_app; simpl;
    (split; [lia | auto]).
Qed.

Lemma open_read_inv (baud_rate : N) (os : open_answers)
    (before_post during_join after_start : list event)
    (s s' : AsyncSerialImpl) (r : outcome) :
  open baud_rate os before_post during_join after_start s = Some (r, s') ->
  idle_inv s -> read_inv s -> read_inv s'.
Proof.
  unfold open. intros Hopen Hlife Hinv.
  assert (forall s1, thread_running s1 = false -> read_inv s1 ->
            match open_setup baud_rate os s1 with
            | (Thrown what, s2) => Some (Thrown what, s2)
            | (Returned, s2) =>
                match run after_start s2 with
                | Some s3 =>
                    Some (Returned, with_open true (setErrorStatus false s3))
                | None => None
                end
            end = Some (r, s') -> read_inv s') as Hbody.
  { clear. intros s1 Hthread Hinv Hbody.
    destruct (open_setup baud_rate os s1) as [r2 s2] eqn:Hsetup.
    pose proof (open_setup_read_inv _ _ _ _ _ Hsetup Hthread Hinv) as Hinv2.
    destruct r2.
    - destruct (run after_start s2) as [s3|] eqn:Hrun; [|discriminate].
      injection Hbody as <- <-.
      apply (run_read_inv _ _ _ Hrun) in Hinv2. exact Hinv2.
    - now injection Hbody as <- <-. }
  destruct (isOpen s) eqn:Hflag.
  - destruct (close before_post during_join s) as [[r1 s1]|] eqn:Hclose;
      [|discriminate].
    pose proof (close_read_inv _ _ _ _ _ Hclose Hinv) as Hinv1.
    destruct (close_spec _ _ _ _ _ Hclose) as [_ Hdone].
    destruct (Hdone Hflag) as (_ & Hthread & _).
    destruct r1.
    + now apply (Hbody s1).
    + now injection Hopen as <- <-.
  - apply (Hbody s); auto. now apply Hlife.
Qed.

Lemma reachable_read_inv (s : AsyncSerialImpl) :
  reachable s -> read_inv s.
Proof.
  induction 1 as [wbs rb | e s s' Hreach IH Hstep
                 | baud_rate os bp dj st s r s' Hreach IH Hopen
                 | bp dj s r s' Hreach IH Hclose].
  - unfold read_inv, read_tokens. simpl. split; [lia | auto].
  - now apply step_read_inv with e s.
  - apply (open_read_inv _ _ _ _ _ _ _ _ Hopen); [|exact IH].
    now apply reachable_idle_inv.
  - now apply (close_read_inv _ _ _ _ _ Hclose).
Qed.

(** X2.  Reactor model.  Between any two calls or events at most one
    [async_read_some] into [readBuffer] is outstanding, and never one
    together with a [doRead] still to be dispatched: the handlers re-arm a
    read only from the completion of the previous one, and [open] posts
    [doRead] only when none is left. *)
Theorem X2_at_most_one_read_outstanding (s : AsyncSerialImpl) :
  reachable s ->
  port_reading s <= 1
  /\ port_reading s + count_occ handler_eq_dec (io_posted s) DoRead <= 1.
Proof.
  intros Hreach. destruct (reachable_read_inv s Hreach) as [Hle _].
  unfold read_tokens in Hle. lia.
Qed.

(** A fresh engine that has been opened. *)
Lemma X2_witness :
  match open 9600 all_accepted [] [] [] (init 0 []) with
  | Some (_, s) =>
      port_reading s <= 1
      /\ port_reading s + count_occ handler_eq_dec (io_posted s) DoRead <= 1
  | None => False
  end.
Proof.
  destruct (open 9600 all_accepted [] [] [] (init 0 [])) as [[r s]|] eqn:Hopen;
    [|vm_compute in Hopen; discriminate].
  apply X2_at_most_one_read_outstanding.
  eapply reach_open; [apply reach_init | exact Hopen].
Defined.

End ReactorOneRead.

(** ** The reactor between sessions *)

Section ReactorSessions.
Import Reactor ReactorSpec.

Lemma run_reachable (evs : list event) :
  forall s s', reachable s -> run evs s = Some s' -> reachable s'.
Proof.
  induction evs as [|e evs IH]; simpl; intros s s' Hreach Hrun.
  - now injection Hrun as <-.
  - destruct (step e s) as [s1|] eqn:Hstep; [|discriminate].
    apply (IH s1 s'); [|exact Hrun]. now apply reach_event with e s.
Qed.

(** X3.  Reactor model.  Between any two calls or events at most one
    [async_write] is outstanding, and [writeBuffer] is not null while one
    is: [doWrite] starts a write only on a null buffer and [writeEnd]
    only when it has just completed the previous one. *)
Theorem X3_at_most_one_write_outstanding (s : AsyncSerialImpl) :
  reachable s ->
  port_writing s <= 1
  /\ (port_writing s = 1 -> writeBuffer s <> None)
  /\ (writeBuffer s = None -> port_writing s = 0).
Proof.
  intros Hreach. destruct (reachable_write_inv s Hreach) as [Hle Hbuf].
  split; [exact Hle|]. split; [exact Hbuf|].
  intros Hnull. destruct (port_writing s) as [|[|n]]; [reflexivity| |lia].
  now destruct Hbuf.
Qed.

(** A fresh engine, opened, on which two writes are made and the posted
    handlers dispatched. *)
Lemma X3_witness :
  match open 9600 all_accepted [] [] [] (init 0 []) with
  | Some (_, s) =>
      match run [CallWriteString "a"; CallWriteString "b";
                 Dispatch no_errors; Dispatch no_errors;
                 Dispatch no_errors] s with
      | Some s' => port_writing s' <= 1
      | None => False
      end
  | None => False
  end.
Proof.
  destruct (open 9600 all_accepted [] [] [] (init 0 [])) as [[r s]|] eqn:Hopen;
    [|vm_compute in Hopen; discriminate].
  assert (reachable s) as Hreach
    by (eapply reach_open; [apply reach_init | exact Hopen]).
  vm_compute in Hopen. injection Hopen as <- <-.
  match goal with
  | |- match ?c with _ => _ end =>
      destruct c as [s'|] eqn:Hrun; [|vm_compute in Hrun; discriminate]
  end.
  apply (X3_at_most_one_write_outstanding s'
           (run_reachable _ _ _ Hreach Hrun)).
Defined.

(** X4.  Reactor model.  Along events among which no write completes with
    an error, [writeBuffer] is null exactly while no write is
    outstanding. *)
Theorem X4_buffer_null_iff_idle_without_write_failure
    (evs : list event) (s s' : AsyncSerialImpl) :
  run evs s = Some s' ->
  existsb is_write_failure evs = false ->
  port_writing s <= 1 ->
  (writeBuffer s = None <-> port_writing s = 0) ->
  port_writing s' <= 1 /\ (writeBuffer s' = None <-> port_writing s' = 0).
Proof.
  intros Hrun Hok Hle Hiff.
  apply (run_write_sync evs s s' Hrun Hok). split; assumption.
Qed.

(** A write, its drain, a second write while the first is in flight, the
    completion that chains the second, and its completion. *)
Lemma X4_witness :
  let s := with_thread_running true (with_port_is_open true (init 0 [])) in
  match run [CallWriteString "a"; Dispatch no_errors; CallWriteString "b";
             Dispatch no_errors; WriteComplete 0 no_errors;
             WriteComplete 0 no_errors] s with
  | Some s' =>
      port_writing s' <= 1 /\ (writeBuffer s' = None <-> port_writing s' = 0)
  | None => False
  end.
Proof.
  intros s.
  destruct (run [CallWriteString "a"; Dispatch no_errors;
                 CallWriteString "b"; Dispatch no_errors;
                 WriteComplete 0 no_errors; WriteComplete 0 no_errors] s)
    as [s'|] eqn:Hrun; [|vm_compute in Hrun; discriminate].
  apply (X4_buffer_null_iff_idle_without_write_failure _ _ _ Hrun eq_refl).
  - apply Nat.le_0_l.
  - split; reflexivity.
Defined.

(** [open] up to the start of the thread, on an engine whose port is
    closed and whose io_service is ready, with every answer good. *)
Lemma open_setup_accepted (baud_rate : N) (s : AsyncSerialImpl) :
  port_is_open s = false -> io_stopped s = false ->
  exists s',
    open_setup baud_rate all_accepted s = (Returned, s')
    /\ port_is_open s' = true /\ thread_running s' = true
    /\ pimpl_open s' = pimpl_open s
    /\ io_posted s' = io_posted s ++ [DoRead]
    /\ port_reading s' = port_reading s
    /\ port_writing s' = port_writing s.
Proof.
  intros Hport Hstopped.
  unfold open_setup, setErrorStatus, thread_start, io_post. simpl.
  rewrite Hport, Hstopped. simpl. eexists. split; [reflexivity|].
  repeat split.
Qed.

Lemma open_setup_posted (baud_rate : N) (os : open_answers)
    (s s' : AsyncSerialImpl) :
  open_setup baud_rate os s = (Returned, s') ->
  io_posted s' = io_posted s ++ [DoRead].
Proof.
  unfold open_setup, setErrorStatus, thread_start, io_post. simpl.
  intros H.
  repeat match type of H with
  | (if ?c then _ else _) = _ => destruct c; simpl in H; try discriminate
  end; injection H as <-; destruct (io_stopped s); reflexivity.
Qed.

(** The first read is armed and fails while the engine is not marked
    open: the failure is ignored and the thread leaves [run]. *)
Lemma first_read_fails_unmarked (error : error_code) (data : list char)
    (ecs ecs' : error_code * error_code) (s : AsyncSerialImpl) :
  thread_running s = true -> io_posted s = [DoRead] ->
  port_reading s = 0 -> port_writing s = 0 -> pimpl_open s = false ->
  failed error = true ->
  exists s',
    run [Dispatch ecs; ReadComplete error data ecs'; RunReturns] s = Some s'
    /\ port_is_open s' = port_is_open s /\ thread_running s' = false
    /\ port_reading s' = 0 /\ io_posted s' = [] /\ io_stopped s' = true.
Proof.
  intros Hthread Hposted Hreading Hwriting Hopen Hfailed.
  simpl. rewrite Hthread, Hposted. simpl.
  rewrite Hthread, Hfailed. simpl.
  unfold readEnd, isOpen. simpl. rewrite Hfailed, Hopen. simpl.
  unfold out_of_work. simpl. rewrite Hthread, Hreading, Hwriting. simpl.
  eexists. split; [reflexivity|]. simpl. auto.
Qed.

(** X5.  Reactor model.  Between any two calls or events, an engine that
    is not marked open has no background thread inside [run] and its
    io_service is ready to run again: [close()] joins the thread and resets
    the io_service, and an [open] that throws has started none.  An engine
    that is marked open need not be listening: when the first read fails
    after [open] has started the thread and before it has written the two
    flags, [readEnd] ignores the failure, the thread finds no work left
    and leaves [run], and [open] returns normally with the engine marked
    open, the error flag clear, the port open, no thread and no read. *)
Theorem X5_closed_engine_has_no_thread :
  (forall s,
     reachable s -> isOpen s = false ->
     thread_running s = false /\ io_stopped s = false)
  /\ (forall wbs rb baud_rate error data ecs ecs',
        failed error = true ->
        exists s',
          construct_open wbs rb baud_rate all_accepted
            [Dispatch ecs; ReadComplete error data ecs'; RunReturns]
          = Some (Returned, s')
          /\ isOpen s' = true /\ errorStatus s' = false
          /\ port_is_open s' = true /\ thread_running s' = false
          /\ port_reading s' = 0 /\ io_posted s' = []
          /\ io_stopped s' = true).
Proof.
  split.
  - intros s Hreach. apply (reachable_idle_inv s Hreach).
  - intros wbs rb baud_rate error data ecs ecs' Hfailed.
    unfold construct_open, open.
    change (isOpen (init wbs rb)) with false. cbv iota.
    destruct (open_setup_accepted baud_rate (init wbs rb) eq_refl eq_refl)
      as (s2 & -> & Hport & Hthread & Hopen & Hposted & Hreading & Hwriting).
    destruct (first_read_fails_unmarked error data ecs ecs' s2
                Hthread Hposted Hreading Hwriting Hopen Hfailed)
      as (s3 & -> & Hport3 & Hthread3 & Hreading3 & Hposted3 & Hstopped3).
    eexists. split; [reflexivity|].
    unfold isOpen, errorStatus. simpl. rewrite Hport3. auto 8.
Qed.

(** A fresh engine is opened and closed: no thread is left.  A fresh
    engine is constructed on a device whose first read fails with code 5
    before the flags are written: it is marked open and has no thread. *)
Lemma X5_witness :
  match open 9600 all_accepted [] [] [] (init 0 []) with
  | Some (_, s0) =>
      match close [] (join_schedule (close_post (close_begin s0))) s0 with
      | Some (_, s) => thread_running s = false /\ io_stopped s = false
      | None => False
      end
  | None => False
  end
  /\ exists s',
       construct_open 0 [] 9600 all_accepted
         [Dispatch no_errors; ReadComplete 5 [] no_errors; RunReturns]
       = Some (Returned, s')
       /\ isOpen s' = true /\ thread_running s' = false.
Proof.
  split.
  - destruct (open 9600 all_accepted [] [] [] (init 0 []))
      as [[r0 s0]|] eqn:Hopen; [|vm_compute in Hopen; discriminate].
    assert (reachable s0) as Hreach0
      by (eapply reach_open; [apply reach_init | exact Hopen]).
    vm_compute in Hopen. injection Hopen as <- <-.
    match goal with
    | |- match ?c with _ => _ end =>
        destruct c as [[r s]|] eqn:Hclose;
          [|vm_compute in Hclose; discriminate]
    end.
    assert (reachable s) as Hreach
      by (eapply reach_close; [exact Hreach0 | exact Hclose]).
    vm_compute in Hclose. injection Hclose as <- <-.
    apply (proj1 X5_closed_engine_has_no_thread _ Hreach). reflexivity.
  - destruct (proj2 X5_closed_engine_has_no_thread 0 [] 9600%N 5%Z []
                no_errors no_errors eq_refl)
      as (s' & Hopen & Hflag & _ & _ & Hthread & _).
    exists s'. auto.
Defined.

(** When no thread runs, only calls can happen; they leave the thread, the
    port and the flags alone. *)
Lemma step_no_thread (e : event) (s s' : AsyncSerialImpl) :
  step e s = Some s' -> thread_running s = false ->
  is_call e = true /\ thread_running s' = false
  /\ port_is_open s' = port_is_open s /\ pimpl_open s' = pimpl_open s
  /\ pimpl_error s' = pimpl_error s /\ delivered s' = delivered s.
Proof.
  destruct e as [ecs|error data ecs|error ecs| |data size|data|str|f|];
    simpl; intros Hstep Hthread; rewrite ?Hthread in Hstep;
    try discriminate; injection Hstep as <-; simpl; auto 7.
Qed.

Lemma run_no_thread (evs : list event) :
  forall s s',
  run evs s = Some s' -> thread_running s = false ->
  forallb is_call evs = true /\ thread_running s' = false
  /\ port_is_open s' = port_is_open s /\ pimpl_open s' = pimpl_open s
  /\ pimpl_error s' = pimpl_error s /\ delivered s' = delivered s.
Proof.
  induction evs as [|e evs IH]; simpl; intros s s' Hrun Hthread.
  - injection Hrun as <-. auto 7.
  - destruct (step e s) as [s1|] eqn:Hstep; [|discriminate].
    destruct (step_no_thread _ _ _ Hstep Hthread)
      as (Hcall & Ht & Hp & Ho & He & Hd).
    destruct (IH _ _ Hrun Ht) as (Hcalls & Ht' & Hp' & Ho' & He' & Hd').
    rewrite Hcall, Hcalls, Hp', Ho', He', Hd'. auto 7.
Qed.

(** X6.  Reactor model.  While the engine is not marked open (before the
    first [open], after a [close()], after an [open] that threw), nothing
    but calls can happen: [write] is not rejected, its bytes are appended
    to the queue and stay there, nothing is handed to the transport and no
    callback is invoked. *)
Theorem X6_closed_engine_only_queues
    (evs : list event) (s s' : AsyncSerialImpl) :
  reachable s ->
  isOpen s = false ->
  run evs s = Some s' ->
  forallb is_call evs = true
  /\ writeQueue s' = writeQueue s ++ List.concat (map written_by evs)
  /\ wire s' = wire s
  /\ delivered s' = delivered s
  /\ isOpen s' = false
  /\ errorStatus s' = errorStatus s.
Proof.
  intros Hreach Hclosed Hrun.
  destruct (reachable_idle_inv s Hreach Hclosed) as [Hthread _].
  destruct (run_no_thread _ _ _ Hrun Hthread)
    as (Hcalls & _ & _ & Ho & He & Hd).
  destruct (run_calls _ _ _ Hcalls Hrun) as (Hq & Hw & _).
  unfold isOpen, errorStatus in *. rewrite Ho, He. auto 7.
Qed.

(** An engine is opened, closed, and then written to twice. *)
Lemma X6_witness :
  match open 9600 all_accepted [] [] [] (init 0 []) with
  | Some (_, s0) =>
      match close [] (join_schedule (close_post (close_begin s0))) s0 with
      | Some (_, s) =>
          match run [CallWriteString "ab"; CallWriteString "c"] s with
          | Some s' =>
              writeQueue s' = ["a"%char; "b"%char; "c"%char]
              /\ wire s' = []
          | None => False
          end
      | None => False
      end
  | None => False
  end.
Proof.
  destruct (open 9600 all_accepted [] [] [] (init 0 [])) as [[r0 s0]|] eqn:Hopen;
    [|vm_compute in Hopen; discriminate].
  assert (reachable s0) as Hreach0
    by (eapply reach_open; [apply reach_init | exact Hopen]).
  vm_compute in Hopen. injection Hopen as <- <-.
  match goal with
  | |- match ?c with _ => _ end =>
      destruct c as [[r s]|] eqn:Hclose;
        [|vm_compute in Hclose; discriminate]
  end.
  assert (reachable s) as Hreach
    by (eapply reach_close; [exact Hreach0 | exact Hclose]).
  vm_compute in Hclose. injection Hclose as <- <-.
  match goal with
  | |- match ?c with _ => _ end =>
      destruct c as [s'|] eqn:Hrun; [|vm_compute in Hrun; discriminate]
  end.
  destruct (X6_closed_engine_only_queues _ _ _ Hreach eq_refl Hrun)
    as (_ & Hq & Hw & _).
  rewrite Hq, Hw. split; reflexivity.
Defined.

End ReactorSessions.

(** ** Reopening the reactor *)

Section ReactorReopen.
Import Reactor ReactorSpec.

(** X7.  Reactor model.  [open] on an engine that is marked open closes it
    first.  If the error flag is set when [open] is called, [open] throws
    the error of [close()] whatever the device answers and whatever
    happens meanwhile: the device is not reopened.  The engine is left not
    marked open, with the error flag set, the thread joined, and the port
    closed, as the handler that set the flag left it. *)
Theorem X7_open_on_failed_engine_does_not_reopen
    (baud_rate : N) (os : open_answers)
    (before_post during_join after_start : list event)
    (s s' : AsyncSerialImpl) (r : outcome) :
  reachable s ->
  isOpen s = true ->
  errorStatus s = true ->
  open baud_rate os before_post during_join after_start s = Some (r, s') ->
  r = Thrown "Error while closing the device"
  /\ isOpen s' = false /\ errorStatus s' = true
  /\ port_is_open s' = false /\ thread_running s' = false.
Proof.
  intros Hreach Hopen Herr Hcall. unfold open in Hcall.
  rewrite Hopen in Hcall.
  destruct (close before_post during_join s) as [[r1 s1]|] eqn:Hclose;
    [|discriminate].
  destruct (close_spec _ _ _ _ _ Hclose) as [_ Hdone].
  destruct (Hdone Hopen)
    as (Hflag & Hthread & _ & Hstay & Hthrown & Hret
        & s0 & s0' & Hrun0 & Hrun & _ & Hs1).
  pose proof (Hstay Herr) as Herr1.
  assert (port_is_open s1 = false) as Hport1.
  { pose proof (reachable_error_inv s Hreach Hopen Herr) as Hport.
    destruct (run_closed_port _ _ _ Hrun0 Hport) as [Hport0 _].
    destruct (run_closed_port _ _ _ Hrun Hport0) as [Hport0' _].
    now rewrite Hs1. }
  destruct r1 as [|what].
  - rewrite (proj1 Hret eq_refl) in Herr1. discriminate.
  - injection Hcall as <- <-.
    split; [now apply Hthrown|]. auto.
Qed.

(** An engine on which a read has failed: [open] throws and the engine is
    left closed. *)
Lemma X7_witness :
  match open 9600 all_accepted [] [] [] (init 0 []) with
  | Some (_, s0) =>
      match run [Dispatch no_errors; ReadComplete 5 [] no_errors] s0 with
      | Some s =>
          match open 9600 all_accepted []
                  (join_schedule (close_post (close_begin s))) [] s with
          | Some (r, s') =>
              r = Thrown "Error while closing the device"
              /\ isOpen s' = false
          | None => False
          end
      | None => False
      end
  | None => False
  end.
Proof.
  destruct (open 9600 all_accepted [] [] [] (init 0 []))
    as [[r0 s0]|] eqn:Hopen; [|vm_compute in Hopen; discriminate].
  assert (reachable s0) as Hreach0
    by (eapply reach_open; [apply reach_init | exact Hopen]).
  vm_compute in Hopen. injection Hopen as <- <-.
  match goal with
  | |- match ?c with _ => _ end =>
      destruct c as [s|] eqn:Hrun; [|vm_compute in Hrun; discriminate]
  end.
  pose proof (run_reachable _ _ _ Hreach0 Hrun) as Hreach.
  vm_compute in Hrun. injection Hrun as <-.
  match goal with
  | |- match ?c with _ => _ end =>
      destruct c as [[r s']|] eqn:Hcall;
        [|vm_compute in Hcall; discriminate]
  end.
  destruct (X7_open_on_failed_engine_does_not_reopen _ _ _ _ _ _ _ _
              Hreach eq_refl eq_refl Hcall) as (Hr & Hflag & _).
  split; assumption.
Defined.

(** X8.  Reactor model.  When [open] throws after the port has been
    opened (an option is not accepted, or the thread cannot be created),
    the port is left open while the engine is not marked open.  From then
    on [close()] does nothing and every [open] throws at [port.open],
    whatever the device answers: this engine cannot be opened any more. *)
Theorem X8_failed_configuration_wedges_engine
    (baud_rate : N) (os : open_answers)
    (before_post during_join after_start : list event)
    (s s1 : AsyncSerialImpl) (what : string) :
  isOpen s = false ->
  port_is_open s = false ->
  device_opens os = true ->
  open baud_rate os before_post during_join after_start s
  = Some (Thrown what, s1) ->
  isOpen s1 = false
  /\ port_is_open s1 = true
  /\ forall baud_rate' os' before_post' during_join' after_start',
       close before_post' during_join' s1 = Some (Returned, s1)
       /\ exists s2,
            open baud_rate' os' before_post' during_join' after_start' s1
            = Some (Thrown "open", s2)
            /\ isOpen s2 = false /\ port_is_open s2 = true.
Proof.
  intros Hclosed Hport Hdev Hcall.
  assert (forall s0 baud_rate' os' bp' dj' st',
            isOpen s0 = false -> port_is_open s0 = true ->
            close bp' dj' s0 = Some (Returned, s0)
            /\ exists s2,
                 open baud_rate' os' bp' dj' st' s0
                 = Some (Thrown "open", s2)
                 /\ isOpen s2 = false /\ port_is_open s2 = true) as Hwedged.
  { clear. intros s0 baud_rate' os' bp' dj' st' Hclosed Hport. split.
    - unfold close. now rewrite Hclosed.
    - unfold open. rewrite Hclosed.
      unfold open_setup, setErrorStatus. simpl. rewrite Hport. simpl.
      eexists. split; [reflexivity|]. split; assumption. }
  unfold open in Hcall. rewrite Hclosed in Hcall.
  destruct (open_setup baud_rate os s) as [r2 s2] eqn:Hsetup.
  destruct r2.
  { destruct (run after_start s2); discriminate. }
  injection Hcall as _ <-.
  assert (isOpen s2 = false /\ port_is_open s2 = true) as [Hflag2 Hport2].
  { unfold open_setup, setErrorStatus, thread_start, io_post in Hsetup.
    simpl in Hsetup. rewrite Hport, Hdev in Hsetup. simpl in Hsetup.
    unfold isOpen in *.
    repeat match type of Hsetup with
    | (if ?c then _ else _) = _ => destruct c; simpl in Hsetup
    end; try discriminate; injection Hsetup as _ <-; simpl; auto. }
  split; [exact Hflag2|]. split; [exact Hport2|].
  intros baud_rate' os' bp' dj' st'. now apply Hwedged.
Qed.

(** The baud rate is not accepted by the first [open] of a fresh engine;
    the second [open], with every answer good, throws. *)
Lemma X8_witness :
  exists s1 s2,
    open 9600 (mkAnswers true false true true true true true) [] [] []
      (init 0 []) = Some (Thrown "set_option", s1)
    /\ open 9600 all_accepted [] [] [] s1 = Some (Thrown "open", s2)
    /\ isOpen s2 = false.
Proof.
  destruct (open 9600 (mkAnswers true false true true true true true)
              [] [] [] (init 0 [])) as [[r1 s1]|] eqn:Hopen;
    [|vm_compute in Hopen; discriminate].
  assert (r1 = Thrown "set_option") as -> by
    (vm_compute in Hopen; now injection Hopen as <- _).
  destruct (X8_failed_configuration_wedges_engine 9600
              (mkAnswers true false true true true true true) [] [] []
              (init 0 []) s1 "set_option"
              eq_refl eq_refl eq_refl Hopen) as (_ & _ & Hlater).
  destruct (Hlater 9600%N all_accepted [] [] [])
    as (_ & s2 & Hopen2 & Hflag & _).
  exists s1, s2. auto.
Defined.

(** The port is closed, or [doClose] is still to be dispatched. *)
Lemma step_close_pending (e : event) (s s' : AsyncSerialImpl) :
  step e s = Some s' ->
  port_is_open s = false \/ In DoClose (io_posted s) ->
  port_is_open s' = false \/ In DoClose (io_posted s').
Proof.
  intros Hstep [Hclosed | Hin].
  { left. now destruct (step_closed_port _ _ _ Hstep Hclosed). }
  destruct e as [ecs|error data ecs|error ecs| |data size|data|str|f|];
    step_cases Hstep.
  - injection Hstep as <-. rewrite ?Hposted in Hin. destruct h; simpl.
    + right. destruct Hin as [Heq | Hin]; [discriminate | assumption].
    + destruct (doWrite_frame (with_io_posted l s))
        as (_ & _ & _ & _ & _ & -> & _).
      right. destruct Hin as [Heq | Hin]; [discriminate | assumption].
    + left. apply (doClose_frame ecs (with_io_posted l s)).
  - destruct (failed error); injection Hstep as <-;
      match goal with
      | |- context [readEnd false ?a ?b ?c ?d] =>
          destruct (readEnd_frame a b c d)
            as (_ & _ & _ & _ & _ & -> & _)
      end; right; assumption.
  - injection Hstep as <-.
    destruct (writeEnd_frame error ecs
                (with_port_writing (pred (port_writing s)) s))
      as (_ & _ & _ & -> & _).
    right. assumption.
  - apply andb_true_iff in Hc as [_ Hwork]. unfold out_of_work in Hwork.
    destruct (io_posted s); [contradiction | discriminate].
  - injection Hstep as <-. right. simpl. apply in_or_app. now left.
  - injection Hstep as <-. right. simpl. apply in_or_app. now left.
  - injection Hstep as <-. right. simpl. apply in_or_app. now left.
  - injection Hstep as <-. right. assumption.
  - injection Hstep as <-. right. assumption.
Qed.

Lemma run_close_pending (evs : list event) :
  forall s s',
  run evs s = Some s' ->
  port_is_open s = false \/ In DoClose (io_posted s) ->
  port_is_open s' = false \/ In DoClose (io_posted s').
Proof.
  induction evs as [|e evs IH]; simpl; intros s s' Hrun Hpending.
  - now injection Hrun as <-.
  - destruct (step e s) as [s1|] eqn:Hstep; [|discriminate].
    apply (IH _ _ Hrun). now apply step_close_pending with e s.
Qed.

Lemma run_calls_keep_posted (evs : list event) :
  forall s s' h,
  forallb is_call evs = true -> run evs s = Some s' ->
  In h (io_posted s) -> In h (io_posted s').
Proof.
  induction evs as [|e evs IH]; simpl; intros s s' h Hcalls Hrun Hin.
  - now injection Hrun as <-.
  - apply andb_true_iff in Hcalls as [Hcall Hcalls].
    destruct (step e s) as [s1|] eqn:Hstep; [|discriminate].
    apply (IH _ _ h Hcalls Hrun).
    destruct e; try discriminate; simpl in Hstep; injection Hstep as <-;
      simpl; auto; apply in_or_app; now left.
Qed.

(** X9.  Reactor model.  When the background thread has already left
    [io_service::run] by the time [close()] is called (as it does after a
    read error, having no read left to wait for), the [doClose] that
    [close()] posts is not run by that [close()]: it is still posted when
    [close()] returns or throws.  The thread of the next [open] that
    succeeds finds it.  From the moment that [open] returns, the port is
    closed or [doClose] is still posted, so the port is closed whenever
    the queue of posted handlers is empty; when the thread is still inside
    [run], dispatching the handlers posted closes the port that [open] has
    just opened, the engine staying marked open; and when nothing happens
    between the start of the thread and the writes of the flags, [open]
    returns with the port open, the thread inside [run] and [doClose]
    posted. *)
Theorem X9_doClose_left_posted_closes_next_session
    (before_post during_join : list event) (s s1 : AsyncSerialImpl)
    (r : outcome) :
  isOpen s = true ->
  thread_running s = false ->
  close before_post during_join s = Some (r, s1) ->
  In DoClose (io_posted s1)
  /\ forall baud_rate os before_post2 during_join2 after_start2 s2,
       open baud_rate os before_post2 during_join2 after_start2 s1
       = Some (Returned, s2) ->
       isOpen s2 = true
       /\ (forall evs3 s3,
             run evs3 s2 = Some s3 -> io_posted s3 = [] ->
             port_is_open s3 = false)
       /\ (thread_running s2 = true ->
           exists s3,
             run (repeat (Dispatch no_errors) (List.length (io_posted s2)))
               s2 = Some s3
             /\ port_is_open s3 = false /\ isOpen s3 = true)
       /\ (after_start2 = [] ->
           port_is_open s2 = true /\ thread_running s2 = true
           /\ In DoClose (io_posted s2)).
Proof.
  intros Hopen Hthread Hclose.
  destruct (close_spec _ _ _ _ _ Hclose) as [_ Hdone].
  destruct (Hdone Hopen)
    as (Hflag & _ & Hstopped & _ & _ & _ & s0 & s0' & Hrun0 & Hrun & _ & ->).
  assert (thread_running (close_begin s) = false) as Hthread0 by assumption.
  destruct (run_no_thread _ _ _ Hrun0 Hthread0) as (_ & Hthread0' & _).
  assert (thread_running (close_post s0) = false) as Hthread1 by assumption.
  destruct (run_no_thread _ _ _ Hrun Hthread1) as (Hcalls & _).
  assert (In DoClose (io_posted s0')) as Hin.
  { apply (run_calls_keep_posted _ _ _ DoClose Hcalls Hrun).
    unfold close_post, io_post. simpl. apply in_or_app. right. now left. }
  split; [exact Hin|].
  intros baud_rate os bp2 dj2 st2 s2 Hcall.
  unfold open in Hcall. rewrite Hflag in Hcall.
  destruct (open_setup baud_rate os (with_io_stopped false s0'))
    as [r2 s2'] eqn:Hsetup.
  destruct r2; [|discriminate].
  destruct (run st2 s2') as [s2''|] eqn:Hrun2; [|discriminate].
  injection Hcall as <-.
  destruct (open_setup_spec _ _ _ _ _ Hsetup)
    as (_ & _ & _ & _ & _ & Hr).
  destruct Hr as (_ & _ & _ & _ & _ & _ & _ & _ & Hport2 & _ & Ht2).
  specialize (Ht2 eq_refl).
  pose proof (open_setup_posted _ _ _ _ Hsetup) as Hposted2.
  simpl in Hposted2.
  assert (In DoClose (io_posted s2')) as Hin2.
  { rewrite Hposted2. apply in_or_app. now left. }
  pose proof (run_close_pending _ _ _ Hrun2 (or_intror Hin2)) as Hpending.
  assert (port_is_open (with_open true (setErrorStatus false s2'')) = false
          \/ In DoClose
               (io_posted (with_open true (setErrorStatus false s2''))))
    as Hpending2 by exact Hpending.
  split; [reflexivity|]. split; [|split].
  - intros evs3 s3 Hrun3 Hempty.
    destruct (run_close_pending _ _ _ Hrun3 Hpending2) as [H | H];
      [exact H|].
    rewrite Hempty in H. contradiction.
  - intros Ht.
    destruct (run_dispatch_all no_errors
                (List.length
                   (io_posted (with_open true (setErrorStatus false s2''))))
                (with_open true (setErrorStatus false s2'')) Ht eq_refl)
      as (s3 & Hrun3 & Hposted3 & _ & Hopen3).
    exists s3. split; [exact Hrun3|]. split; [|exact Hopen3].
    destruct (run_close_pending _ _ _ Hrun3 Hpending2) as [H | H];
      [exact H|].
    rewrite Hposted3 in H. contradiction.
  - intros ->. simpl in Hrun2. injection Hrun2 as <-. simpl. auto.
Qed.

(** A read fails on an open engine and the thread leaves [run]; [close()]
    throws; the engine is opened again and its thread dispatches what is
    posted: the port is closed. *)
Lemma X9_witness :
  match run [ReadComplete 5 [] no_errors; RunReturns] open_and_reading with
  | Some s =>
      match close [] [] s with
      | Some (_, s1) =>
          match open 9600 all_accepted [] [] [] s1 with
          | Some (r2, s2) =>
              r2 = Returned
              /\ match run [Dispatch no_errors; Dispatch no_errors] s2 with
                 | Some s3 => port_is_open s3 = false
                 | None => False
                 end
          | None => False
          end
      | None => False
      end
  | None => False
  end.
Proof.
  destruct (run [ReadComplete 5 [] no_errors; RunReturns] open_and_reading)
    as [s|] eqn:Hrun; [|vm_compute in Hrun; discriminate].
  vm_compute in Hrun. injection Hrun as <-.
  match goal with
  | |- match ?c with _ => _ end =>
      destruct c as [[r1 s1]|] eqn:Hclose;
        [|vm_compute in Hclose; discriminate]
  end.
  match type of Hclose with
  | close _ _ ?s = _ =>
      destruct (X9_doClose_left_posted_closes_next_session [] [] s s1 r1
                  eq_refl eq_refl Hclose) as [_ Hnext]
  end.
  vm_compute in Hclose. injection Hclose as <- <-.
  match goal with
  | |- match ?c with _ => _ end =>
      destruct c as [[r2 s2]|] eqn:Hcall;
        [|vm_compute in Hcall; discriminate]
  end.
  assert (r2 = Returned) as -> by
    (vm_compute in Hcall; now injection Hcall as <- _).
  split; [reflexivity|].
  destruct (Hnext _ _ _ _ _ _ Hcall) as (_ & Hempty & _).
  vm_compute in Hcall. injection Hcall as <-.
  match goal with
  | |- match ?c with _ => _ end =>
      destruct c as [s3|] eqn:Hrun3; [|vm_compute in Hrun3; discriminate]
  end.
  apply (Hempty _ _ Hrun3).
  vm_compute in Hrun3. now injection Hrun3 as <-.
Defined.

End ReactorReopen.

(** ** The blocking worker: deliveries, writes and idle engines *)

Section WorkerChannel.
Import BlockingWorker WorkerSpec.

Lemma worker_step_deliveries (e : event) (s s' : AsyncSerialImpl) :
  step e s = Some s' ->
  forall evs,
  delivered s ++ deliveries (callback s) (e :: evs)
  = delivered s' ++ deliveries (callback s') evs.
Proof.
  destruct e as [received data|r data size|r data|r str|f|]; simpl;
    intros Hstep evs.
  - destruct (thread_running s); [|discriminate]. simpl in Hstep.
    unfold doRead_iteration, isOpen in Hstep.
    destruct (received <? 0)%Z eqn:Hneg.
    + simpl in Hstep.
      destruct (pimpl_open s); simpl in Hstep; injection Hstep as <-;
        reflexivity.
    + destruct (fd_is_open s); [|discriminate]. simpl in Hstep.
      destruct (Z.of_nat (List.length data) =? received)%Z eqn:Hlen;
        [|discriminate].
      apply Z.eqb_eq in Hlen. simpl in Hstep.
      destruct (callback s) as [f|] eqn:Hcb; injection Hstep as <-; simpl;
        rewrite ?Hcb; [|reflexivity].
      rewrite <- Hlen, Nat2Z.id, firstn_length_app. now rewrite <- app_assoc.
  - injection Hstep as <-. unfold write. cbv zeta.
    destruct (negb _); reflexivity.
  - injection Hstep as <-. unfold write_vector. cbv zeta.
    destruct (negb _); reflexivity.
  - injection Hstep as <-. unfold writeString. cbv zeta.
    destruct (negb _); reflexivity.
  - injection Hstep as <-. reflexivity.
  - injection Hstep as <-. reflexivity.
Qed.

Lemma worker_run_deliveries (evs : list event) :
  forall s s',
  run evs s = Some s' ->
  delivered s' = delivered s ++ deliveries (callback s) evs.
Proof.
  induction evs as [|e evs IH]; simpl run; intros s s' Hrun.
  - injection Hrun as <-. simpl. now rewrite app_nil_r.
  - destruct (step e s) as [s1|] eqn:Hstep; [|discriminate].
    rewrite (IH _ _ Hrun). symmetry. now apply worker_step_deliveries.
Qed.

Lemma worker_deliveries_none (evs : list event) :
  existsb sets_callback evs = false -> deliveries None evs = [].
Proof.
  induction evs as [|e evs IH]; simpl; [reflexivity|].
  intros Hnone. apply orb_false_iff in Hnone as [He Hevs].
  destruct e; simpl in He; try discriminate; simpl; auto.
  destruct (received <? 0)%Z; simpl; auto.
Qed.

(** X10.  Blocking-worker model.  Along any list of events the log of
    callback invocations grows by exactly the bytes of the reads that
    returned a length of zero or more, in order, each chunk whole and
    once, for the callback registered when the read returned; a chunk
    that arrives while no callback is registered is dropped, and a read
    that fails delivers nothing. *)
Theorem X10_worker_reads_are_delivered_in_order
    (evs : list event) (s s' : AsyncSerialImpl) :
  run evs s = Some s' ->
  delivered s' = delivered s ++ deliveries (callback s) evs.
Proof. apply worker_run_deliveries. Qed.

(** Two chunks arrive around a read that fails, the callback is cleared,
    a third chunk arrives. *)
Lemma X10_witness :
  match run [ReadReturns 2 ["a"%char; "b"%char]; ReadReturns (-1) [];
             ReadReturns 1 ["c"%char]; CallClearReadCallback;
             ReadReturns 1 ["d"%char]] open_and_looping with
  | Some s' => delivered s' = [(7, ["a"%char; "b"%char]); (7, ["c"%char])]
  | None => False
  end.
Proof.
  destruct (run [ReadReturns 2 ["a"%char; "b"%char]; ReadReturns (-1) [];
                 ReadReturns 1 ["c"%char]; CallClearReadCallback;
                 ReadReturns 1 ["d"%char]] open_and_looping)
    as [s'|] eqn:Hrun; [|vm_compute in Hrun; discriminate].
  rewrite (X10_worker_reads_are_delivered_in_order _ _ _ Hrun).
  reflexivity.
Defined.

Lemma to_size_t_differs (r size : Z) :
  (0 <= size)%Z -> (-1 <= r <= size)%Z -> (size < 2 ^ 64 - 1)%Z ->
  (to_size_t r =? size)%Z = (r =? size)%Z.
Proof.
  intros Hnonneg Hr Hsize. unfold to_size_t.
  change (2 ^ 64)%Z with 18446744073709551616%Z in *.
  destruct (Z.eq_dec r (-1)) as [-> | Hne].
  - change ((-1) mod 18446744073709551616)%Z
      with 18446744073709551615%Z.
    destruct (Z.eqb_spec 18446744073709551615 size),
             (Z.eqb_spec (-1) size); try reflexivity; exfalso; lia.
  - rewrite Z.mod_small by lia. reflexivity.
Qed.

(** X11.  Blocking-worker model.  For a buffer of fewer than [2^64 - 1]
    bytes and an answer of [::write] between [-1] and its size, each of
    the three write functions hands to the transport the bytes that
    [::write] accepted, sets the error flag exactly when [::write] did not
    accept them all (so the comparison of the signed result with the
    unsigned size does not hide a failure), never clears it, and leaves
    the open flag as it is: a failed write is reported nowhere else. *)
Theorem X11_worker_write_reports_short_writes
    (r : Z) (data : nat -> char) (size : nat) (vec : list char)
    (str : string) (s : AsyncSerialImpl) :
  (Z.of_nat size < 2 ^ 64 - 1)%Z ->
  (-1 <= r <= Z.of_nat size)%Z ->
  List.length vec = size ->
  String.length str = size ->
  (errorStatus (write r data size s)
   = errorStatus s || negb (r =? Z.of_nat size)%Z
   /\ wire (write r data size s)
      = wire s ++ firstn (Z.to_nat r) (bytes_of_range data size)
   /\ isOpen (write r data size s) = isOpen s)
  /\ (errorStatus (write_vector r vec s)
      = errorStatus s || negb (r =? Z.of_nat size)%Z
      /\ wire (write_vector r vec s) = wire s ++ firstn (Z.to_nat r) vec
      /\ isOpen (write_vector r vec s) = isOpen s)
  /\ (errorStatus (writeString r str s)
      = errorStatus s || negb (r =? Z.of_nat size)%Z
      /\ wire (writeString r str s)
         = wire s ++ firstn (Z.to_nat r) (bytes_of_string str)
      /\ isOpen (writeString r str s) = isOpen s).
Proof.
  intros Hsize Hr Hvec Hstr.
  unfold write, write_vector, writeString, errorStatus, isOpen.
  cbv zeta.
  rewrite Hvec, Hstr, (to_size_t_differs r (Z.of_nat size)
             (Nat2Z.is_nonneg size) Hr Hsize).
  destruct (r =? Z.of_nat size)%Z; simpl; rewrite ?orb_true_r, ?orb_false_r;
    repeat split.
Qed.

(** A write of three bytes of which [::write] takes two, and one that
    fails. *)
Lemma X11_witness :
  let vec := ["a"%char; "b"%char; "c"%char] in
  errorStatus (write_vector 2 vec open_and_looping) = true
  /\ wire (write_vector 2 vec open_and_looping) = ["a"%char; "b"%char]
  /\ errorStatus (writeString (-1) "abc" open_and_looping) = true
  /\ wire (writeString (-1) "abc" open_and_looping) = [].
Proof.
  intros vec.
  destruct (X11_worker_write_reports_short_writes 2 (fun _ => "a"%char) 3
              vec "abc" open_and_looping
              ltac:(reflexivity) ltac:(lia) eq_refl eq_refl)
    as (_ & (He & Hw & _) & _).
  destruct (X11_worker_write_reports_short_writes (-1) (fun _ => "a"%char)
              3 vec "abc" open_and_looping
              ltac:(reflexivity) ltac:(lia) eq_refl eq_refl)
    as (_ & _ & (He' & Hw' & _)).
  rewrite He, Hw, He', Hw'. repeat split.
Defined.


Lemma worker_reachable_idle (s : AsyncSerialImpl) :
  reachable s ->
  isOpen s = false -> thread_running s = false /\ fd_is_open s = false.
Proof.
  induction 1 as [fd0 rb | e s s' _ IH Hstep
                 | os evs s r s' _ IH Hopen
                 | evs s r s' _ IH Hclose]; intros Hclosed.
  - split; reflexivity.
  - destruct (worker_step_frame _ _ _ Hstep) as (Ho & Hf & _ & Ht).
    unfold isOpen in *. rewrite Ho in Hclosed.
    destruct (IH Hclosed) as [Hthread Hfd].
    split; [now apply Ht | congruence].
  - unfold open in Hopen.
    destruct (isOpen s) eqn:Hflag.
    + destruct (close evs s) as [[r1 s1]|] eqn:Hclose; [|discriminate].
      destruct (worker_close_spec _ _ _ _ Hclose) as [_ Hdone].
      destruct (Hdone Hflag) as (_ & Ht & Hf & _).
      destruct r1.
      * destruct (thread_starts os); injection Hopen as <- <-;
          discriminate.
      * injection Hopen as <- <-. split; assumption.
    + destruct (thread_starts os); injection Hopen as <- <-; discriminate.
  - destruct (worker_close_spec _ _ _ _ Hclose) as [Hnoop Hdone].
    destruct (isOpen s) eqn:Hflag.
    + destruct (Hdone eq_refl) as (_ & Ht & Hf & _). split; assumption.
    + destruct (Hnoop eq_refl) as [_ ->]. now apply IH.
Qed.



End WorkerChannel.

(** ** Construction and destruction *)

Section ConstructDestroy.

(** X13.  In both models the destructor of an engine that is not open
    changes nothing, and the destructor of an open engine closes it,
    dropping the exception of [close()]: whether or not the error flag is
    set, the engine ends not marked open, with its background thread
    ended.  The error flag is not cleared.  The blocking worker's
    descriptor is closed in every case; the reactor's port is closed when
    the thread is still inside [run], or the port closed already, at the
    time [close()] posts [doClose].  The destructor does end: there is a
    schedule of the background thread under which its join ends. *)
Theorem X13_destructor_closes_and_joins :
  (forall before_post during_join s s',
     ReactorSpec.reachable s ->
     Reactor.destroy before_post during_join s = Some s' ->
     Reactor.isOpen s' = false
     /\ Reactor.thread_running s' = false
     /\ (Reactor.isOpen s = false -> s' = s)
     /\ (Reactor.errorStatus s = true -> Reactor.errorStatus s' = true)
     /\ (Reactor.isOpen s = true ->
         forall s0,
         Reactor.run before_post (Reactor.close_begin s) = Some s0 ->
         Reactor.thread_running s0 = true
         \/ Reactor.port_is_open s0 = false ->
         Reactor.port_is_open s' = false))
  /\ (forall s, exists evs s', Reactor.destroy [] evs s = Some s')
  /\ (forall evs s s',
        WorkerSpec.reachable s ->
        BlockingWorker.destroy evs s = Some s' ->
        BlockingWorker.isOpen s' = false
        /\ BlockingWorker.thread_running s' = false
        /\ BlockingWorker.fd_is_open s' = false
        /\ (BlockingWorker.isOpen s = false -> s' = s)
        /\ (BlockingWorker.errorStatus s = true ->
            BlockingWorker.errorStatus s' = true))
  /\ (forall s, exists evs s', BlockingWorker.destroy evs s = Some s').
Proof.
  split; [|split; [|split]].
  - intros bp dj s s' Hreach Hdestroy. unfold Reactor.destroy in Hdestroy.
    pose proof (reachable_idle_inv s Hreach) as Hidle.
    destruct (Reactor.isOpen s) eqn:Hopen.
    + destruct (Reactor.close bp dj s) as [[r s1]|] eqn:Hclose;
        [|discriminate].
      injection Hdestroy as <-.
      destruct (close_spec _ _ _ _ _ Hclose) as [_ Hdone].
      destruct (Hdone Hopen) as (Hflag & Hthread & _ & Hstay & _).
      split; [exact Hflag|]. split; [exact Hthread|].
      split; [discriminate|]. split; [exact Hstay|].
      intros _ s0 Hrun0 Hlive.
      now apply (close_releases_port _ _ _ _ _ _ Hopen Hclose Hrun0).
    + injection Hdestroy as <-. destruct (Hidle Hopen) as [Hthread _].
      repeat split; auto. discriminate.
  - intros s. unfold Reactor.destroy.
    destruct (Reactor.isOpen s); [|now exists [], s].
    destruct (close_returns s) as (evs & r & s' & Hclose).
    exists evs, s'. now rewrite Hclose.
  - intros evs s s' Hreach Hdestroy.
    unfold BlockingWorker.destroy in Hdestroy.
    destruct (BlockingWorker.isOpen s) eqn:Hopen.
    + destruct (BlockingWorker.close evs s) as [[r s1]|] eqn:Hclose;
        [|discriminate].
      injection Hdestroy as <-.
      destruct (worker_close_spec _ _ _ _ Hclose) as [_ Hdone].
      destruct (Hdone Hopen) as (Hflag & Hthread & Hfd & Hstay & _).
      repeat split; auto. discriminate.
    + injection Hdestroy as <-.
      destruct (worker_reachable_idle s Hreach Hopen) as [Hthread Hfd].
      repeat split; auto.
  - intros s. unfold BlockingWorker.destroy.
    destruct (BlockingWorker.isOpen s); [|now exists [], s].
    destruct (worker_close_returns s) as (evs & r & s' & Hclose).
    exists evs, s'. now rewrite Hclose.
Qed.

(** A reactor engine on which a read has failed is destroyed: [close()]
    would throw, the destructor ends with the port closed. *)
Lemma X13_witness :
  match Reactor.open 9600 ReactorSpec.all_accepted [] [] []
          (Reactor.init 0 [])
  with
  | Some (_, s0) =>
      match Reactor.run [Reactor.Dispatch no_errors;
                         Reactor.ReadComplete 5 [] no_errors] s0 with
      | Some s =>
          match Reactor.destroy []
                  (ReactorSpec.join_schedule
                     (Reactor.close_post (Reactor.close_begin s))) s with
          | Some s' =>
              Reactor.errorStatus s' = true
              /\ Reactor.isOpen s' = false
              /\ Reactor.port_is_open s' = false
          | None => False
          end
      | None => False
      end
  | None => False
  end.
Proof.
  destruct (Reactor.open 9600 ReactorSpec.all_accepted [] [] []
              (Reactor.init 0 [])) as [[r0 s0]|] eqn:Hopen;
    [|vm_compute in Hopen; discriminate].
  assert (ReactorSpec.reachable s0) as Hreach0
    by (eapply ReactorSpec.reach_open;
        [apply ReactorSpec.reach_init | exact Hopen]).
  vm_compute in Hopen. injection Hopen as <- <-.
  match goal with
  | |- match ?c with _ => _ end =>
      destruct c as [s|] eqn:Hrun; [|vm_compute in Hrun; discriminate]
  end.
  pose proof (run_reachable _ _ _ Hreach0 Hrun) as Hreach.
  vm_compute in Hrun. injection Hrun as <-.
  match goal with
  | |- match ?c with _ => _ end =>
      destruct c as [s'|] eqn:Hdestroy;
        [|vm_compute in Hdestroy; discriminate]
  end.
  destruct (proj1 X13_destructor_closes_and_joins _ _ _ _ Hreach Hdestroy)
    as (Hflag & _ & _ & Herr & Hport).
  split; [now apply Herr|]. split; [exact Hflag|].
  apply (Hport eq_refl _ eq_refl). now left.
Defined.

(** X14.  In both models the destructor of the callback variant clears
    the callback before the engine is closed: unless another thread
    registers a callback meanwhile, no callback is invoked from the
    moment the destructor starts, whatever reads complete while it waits
    for the background thread. *)
Theorem X14_callback_destructor_invokes_no_callback :
  (forall before_post during_join s s',
     Reactor.destroy_callback before_post during_join s = Some s' ->
     existsb ReactorSpec.sets_callback (before_post ++ during_join) = false ->
     Reactor.delivered s' = Reactor.delivered s)
  /\ (forall evs s s',
        BlockingWorker.destroy_callback evs s = Some s' ->
        existsb WorkerSpec.sets_callback evs = false ->
        BlockingWorker.delivered s' = BlockingWorker.delivered s).
Proof.
  split.
  - intros bp dj s s' Hdestroy Hnone.
    unfold Reactor.destroy_callback, Reactor.destroy in Hdestroy.
    cbv zeta in Hdestroy.
    destruct (Reactor.isOpen (Reactor.clearReadCallback s)) eqn:Hopen.
    2:{ now injection Hdestroy as <-. }
    destruct (Reactor.close bp dj (Reactor.clearReadCallback s))
      as [[r s1]|] eqn:Hclose; [|discriminate].
    injection Hdestroy as <-.
    destruct (close_spec _ _ _ _ _ Hclose) as [_ Hdone].
    destruct (Hdone Hopen)
      as (_ & _ & _ & _ & _ & _ & s0 & s0' & Hrun0 & Hrun & _ & ->).
    simpl. rewrite (run_deliveries _ _ _ Hrun). simpl.
    rewrite <- (run_deliveries_app _ _ _ dj Hrun0). simpl.
    rewrite (deliveries_none _ Hnone). apply app_nil_r.
  - intros evs s s' Hdestroy Hnone.
    unfold BlockingWorker.destroy_callback, BlockingWorker.destroy
      in Hdestroy.
    cbv zeta in Hdestroy.
    destruct (BlockingWorker.isOpen (BlockingWorker.clearReadCallback s))
      eqn:Hopen.
    2:{ now injection Hdestroy as <-. }
    unfold BlockingWorker.close in Hdestroy. rewrite Hopen in Hdestroy.
    simpl in Hdestroy.
    destruct (BlockingWorker.run evs _) as [s0|] eqn:Hrun; [|discriminate].
    destruct (BlockingWorker.thread_running s0); [discriminate|].
    unfold BlockingWorker.close_end in Hdestroy.
    destruct (BlockingWorker.errorStatus s0); injection Hdestroy as <-;
      rewrite (worker_run_deliveries _ _ _ Hrun); simpl;
      rewrite (worker_deliveries_none _ Hnone); apply app_nil_r.
Qed.

(** A reactor engine with a callback and a read outstanding is destroyed;
    the read completes with a chunk before [doClose] is dispatched. *)
Lemma X14_witness :
  let s := ReactorSpec.open_and_reading in
  match Reactor.destroy_callback []
          [Reactor.ReadComplete 0 ["a"%char] no_errors;
           Reactor.Dispatch no_errors;
           Reactor.ReadComplete 125 [] no_errors;
           Reactor.RunReturns] s with
  | Some s' => Reactor.delivered s' = []
  | None => False
  end.
Proof.
  intros s.
  destruct (Reactor.destroy_callback []
              [Reactor.ReadComplete 0 ["a"%char] no_errors;
               Reactor.Dispatch no_errors;
               Reactor.ReadComplete 125 [] no_errors;
               Reactor.RunReturns] s) as [s'|] eqn:Hdestroy;
    [|vm_compute in Hdestroy; discriminate].
  apply (proj1 X14_callback_destructor_invokes_no_callback _ _ _ _ Hdestroy).
  reflexivity.
Defined.

(** X15.  The constructor that takes a device opens it on a fresh engine.
    In the reactor model it returns exactly when the device opens, the
    five options are accepted and the thread is created, with the engine
    marked open and the error flag clear; otherwise it throws with the
    engine not marked open, the error flag set and no thread.  When
    nothing happens between the start of the thread and the writes of the
    flags, it returns with the port open, the thread inside [run] and
    [doRead] posted.  In the blocking-worker model it returns exactly when
    the thread is created, whatever [::open] and the configuration calls
    answer, and the engine is then marked open with the error flag clear
    and [fd] holding what [::open] returned. *)
Theorem X15_constructor_with_device :
  (forall wbs rb baud_rate os after_start r s',
     Reactor.construct_open wbs rb baud_rate os after_start = Some (r, s') ->
     (r = Returned <->
      Reactor.device_opens os = true
      /\ Reactor.baud_rate_accepted os = true
      /\ Reactor.parity_accepted os = true
      /\ Reactor.csize_accepted os = true
      /\ Reactor.flow_accepted os = true
      /\ Reactor.stop_accepted os = true
      /\ Reactor.thread_starts os = true)
     /\ (r = Returned ->
         Reactor.isOpen s' = true /\ Reactor.errorStatus s' = false)
     /\ (r <> Returned ->
         Reactor.isOpen s' = false /\ Reactor.errorStatus s' = true
         /\ Reactor.thread_running s' = false))
  /\ (forall wbs rb baud_rate os,
        exists r s',
          Reactor.construct_open wbs rb baud_rate os [] = Some (r, s')
          /\ (r = Returned ->
              Reactor.port_is_open s' = true
              /\ Reactor.thread_running s' = true
              /\ Reactor.io_posted s' = [Reactor.DoRead]))
  /\ (forall fd0 rb os evs,
        exists r s',
          BlockingWorker.construct_open fd0 rb os evs = Some (r, s')
          /\ (r = Returned <-> BlockingWorker.thread_starts os = true)
          /\ BlockingWorker.isOpen s' = true
          /\ BlockingWorker.errorStatus s' = false
          /\ BlockingWorker.fd s' = BlockingWorker.open_result os
          /\ BlockingWorker.thread_running s'
             = BlockingWorker.thread_starts os).
Proof.
  split; [|split].
  - intros wbs rb baud_rate os st r s' Hopen.
    unfold Reactor.construct_open in Hopen.
    pose proof (reactor_open_flags _ _ _ _ _ _ _ _ Hopen) as Hflags.
    assert (ReactorSpec.idle_inv (Reactor.init wbs rb)) as Hidle
      by (unfold ReactorSpec.idle_inv; simpl; auto).
    pose proof (open_spec _ _ _ _ _ _ _ _ Hidle Hopen) as Hspec.
    destruct r as [|what].
    + destruct Hflags as (Herr & Hflag & Hanswers).
      split; [split; [intros _; exact Hanswers | reflexivity]|].
      split; [auto | intros H; now destruct H].
    + destruct Hflags as (Herr & Hflag).
      destruct Hspec as (_ & _ & Hthread & _).
      split; [|split; [discriminate | auto]].
      split; [discriminate|].
      intros (H1 & H2 & H3 & H4 & H5 & H6 & H7). exfalso.
      destruct os as [o1 o2 o3 o4 o5 o6 o7]. simpl in *. subst.
      unfold Reactor.open in Hopen.
      change (Reactor.isOpen (Reactor.init wbs rb)) with false in Hopen.
      cbv iota in Hopen.
      destruct (open_setup_accepted baud_rate (Reactor.init wbs rb)
                  eq_refl eq_refl) as (s2 & Hsetup & _).
      unfold ReactorSpec.all_accepted in Hsetup. rewrite Hsetup in Hopen.
      destruct (Reactor.run st s2); discriminate.
  - intros wbs rb baud_rate os.
    unfold Reactor.construct_open, Reactor.open, Reactor.open_setup,
      Reactor.setErrorStatus, Reactor.thread_start, Reactor.io_post.
    simpl.
    destruct os as [[] [] [] [] [] [] []]; simpl;
      eexists; eexists; (split; [reflexivity|]);
      intros H; try discriminate H; repeat split.
  - intros fd0 rb os evs. unfold BlockingWorker.construct_open.
    rewrite (worker_open_spec os evs (BlockingWorker.init fd0 rb) eq_refl).
    destruct (open_configure_frame os
                (BlockingWorker.setErrorStatus true
                   (BlockingWorker.init fd0 rb)))
      as (_ & _ & Ht & Hfd & _).
    destruct (BlockingWorker.thread_starts os); eexists; eexists;
      (split; [reflexivity|]);
      unfold BlockingWorker.isOpen, BlockingWorker.errorStatus; simpl;
      rewrite ?Hfd, ?Ht; repeat split; intros; try discriminate; auto.
Qed.

(** A fresh engine is constructed on a device that opens and accepts
    every option, the first read being armed before the flags are
    written. *)
Lemma X15_witness :
  match Reactor.construct_open 0 [] 9600 ReactorSpec.all_accepted
          [Reactor.Dispatch no_errors] with
  | Some (r, s') =>
      r = Returned /\ Reactor.isOpen s' = true
      /\ Reactor.errorStatus s' = false
  | None => False
  end.
Proof.
  destruct (Reactor.construct_open 0 [] 9600 ReactorSpec.all_accepted
              [Reactor.Dispatch no_errors]) as [[r s']|] eqn:Hopen;
    [|vm_compute in Hopen; discriminate].
  destruct (proj1 X15_constructor_with_device _ _ _ _ _ _ _ Hopen)
    as (Hiff & Hflags & _).
  assert (r = Returned) as Hr
    by (apply Hiff; repeat split).
  split; [exact Hr|]. now apply Hflags.
Defined.

End ConstructDestroy.
